(** * check_file_length: a line-count gate for Python files

    A shallow embedding of [instructions/check_file_length.py] and the
    properties of its [main] procedure.

    The script walks [sys.argv[1:]], skips every path that does not end
    in [.py], counts the lines of the others, collects the ones above 300
    lines and reports them; the first read that raises an [Exception]
    aborts the run.

    The embedding follows the control flow of [main]:
    - Python strings are [string]s, Python integers are [Z]; a character
      of a decoded text is an [ascii], of which only LF and CR matter to
      the iteration over lines;
    - the file system is a function from paths to what [open] and the
      iteration over the file do there (a text, or an exception at
      [open] or during the read); it does not change during a run;
    - [main] runs in a small state-and-exception monad whose state holds
      the local list [violations], the lines printed so far and the trace
      of the paths handed to [open]; [print] always succeeds, except in
      module [IO] and the part on runs whose writes can fail, where
      standard output can refuse a write;
    - exceptions carry their class, so that [except Exception] is the
      test it is in Python: [KeyboardInterrupt] is not an [Exception]. *)

From Stdlib Require Import ZArith List Bool String Ascii Lia DecimalString.
From Stdlib Require Import DecimalZ DecimalPos Permutation.
Import ListNotations.

Open Scope string_scope.
Open Scope Z_scope.

(** ** Python strings *)

Module PyStr.

(** [s.endswith(suffix)]: the last [len(suffix)] characters of [s] are
    compared with [suffix]; a string shorter than the suffix never
    matches. *)
Definition endswith (s suffix : string) : bool :=
  (String.length suffix <=? String.length s)%nat
  && String.eqb
       (substring (String.length s - String.length suffix)
                  (String.length suffix) s)
       suffix.

(** [str(n)] and [f"{n}"] for an integer: its decimal numeral. *)
Definition str_int (n : Z) : string :=
  NilZero.string_of_int (Z.to_int n).

(** [sum(xs)] over integers, starting from 0 and adding left to right. *)
Definition sum (xs : list Z) : Z := fold_left Z.add xs 0.

End PyStr.

(** ** Text files and line iteration *)

Module TextFile.

Definition LF : ascii := "010"%char.
Definition CR : ascii := "013"%char.

Definition is_LF (c : ascii) : bool := Ascii.eqb c LF.
Definition is_CR (c : ascii) : bool := Ascii.eqb c CR.

(** Append one character to the line being assembled. *)
Definition snoc (line : string) (c : ascii) : string :=
  line ++ String c EmptyString.

(** Iterating over a file opened with [open(filepath)] (text mode,
    [newline=None]): each of LF, CR and CR LF ends a line and is handed
    over as a single LF; what follows the last terminator is a line of
    its own when it is not empty.  [cur] is the line read so far. *)
Fixpoint iter_from (cur : string) (text : string) : list string :=
  match text with
  | EmptyString =>
      match cur with
      | EmptyString => []
      | _ => [cur]
      end
  | String c rest =>
      if is_LF c then snoc cur LF :: iter_from EmptyString rest
      else if is_CR c then
        match rest with
        | String c' rest' =>
            if is_LF c' then snoc cur LF :: iter_from EmptyString rest'
            else snoc cur LF :: iter_from EmptyString rest
        | EmptyString => [snoc cur LF]
        end
      else iter_from (snoc cur c) rest
  end.

Definition iter (text : string) : list string := iter_from EmptyString text.

(** [sum(1 for _ in f)] on a file whose decoded text is [text]. *)
Definition line_count (text : string) : Z :=
  PyStr.sum (map (fun _ => 1) (iter text)).

(** *** The count in the words of the specification

    Line records are the units separated by line terminators; a final
    partial line without a terminator is one more record. *)

(** Number of line terminators of a text; CR LF is one terminator. *)
Fixpoint terminators (text : string) : Z :=
  match text with
  | EmptyString => 0
  | String c rest =>
      if is_LF c then 1 + terminators rest
      else if is_CR c then
        match rest with
        | String c' rest' =>
            if is_LF c' then 1 + terminators rest'
            else 1 + terminators rest
        | EmptyString => 1
        end
      else terminators rest
  end.

(** Last character of a text, if it has one. *)
Fixpoint last_char (text : string) : option ascii :=
  match text with
  | EmptyString => None
  | String c EmptyString => Some c
  | String _ rest => last_char rest
  end.

(** The text ends in a partial line: it is not empty and its last
    character is not a terminator. *)
Definition partial_tail (text : string) : bool :=
  match last_char text with
  | None => false
  | Some c => negb (is_LF c || is_CR c)
  end.

Definition line_records (text : string) : Z :=
  terminators text + (if partial_tail text then 1 else 0).

(** Whether a further record is pending at the end of [text], given that
    [cur] has been read since the last terminator. *)
Definition pending (cur text : string) : bool :=
  match last_char text with
  | None => match cur with EmptyString => false | _ => true end
  | Some c => negb (is_LF c || is_CR c)
  end.

End TextFile.

(** ** Exceptions *)

Module Exc.

(** The classes of the exceptions that opening a file and reading it as
    text raise.  All but [KeyboardInterrupt] derive from [Exception];
    [KeyboardInterrupt] derives from [BaseException] only. *)
Inductive class : Type :=
| FileNotFoundError
| PermissionError
| IsADirectoryError
| OSError
| UnicodeDecodeError
| ValueError
| MemoryError
| KeyboardInterrupt.

Record exn : Type := mkExn { cls : class; message : string }.

(** [isinstance(e, Exception)], the test of [except Exception as e]. *)
Definition is_Exception (e : exn) : bool :=
  match cls e with
  | KeyboardInterrupt => false
  | _ => true
  end.

(** [str(e)] and [f"{e}"]. *)
Definition str (e : exn) : string := message e.

End Exc.

(** ** The file system *)

Module FS.

(** What happens at a path when it is opened and read to the end. *)
Inductive entry : Type :=
| Text (text : string)
    (** [open] succeeds and the file decodes to [text] *)
| ReadRaises (before : string) (e : Exc.exn)
    (** [open] succeeds, the lines of [before] are read, then [e] is
        raised (a decoding error, an I/O error) *)
| OpenRaises (e : Exc.exn).
    (** [open] raises [e] (no such file, permission denied, ...) *)

Definition t : Type := string -> entry.

(** The exception met when the entry is opened and read, if any. *)
Definition failure (f : entry) : option Exc.exn :=
  match f with
  | Text _ => None
  | ReadRaises _ e => Some e
  | OpenRaises e => Some e
  end.

End FS.

(** ** The monad of [main] *)

Module Run.

(** A violation is the pair [(filepath, line_count)]. *)
Definition violation : Type := (string * Z)%type.

(** The state of a run: the local list [violations], the lines written
    by [print] (oldest first) and the paths passed to [open] (oldest
    first). *)
Record state : Type := mkState {
  violations : list violation;
  stdout : list string;
  opened : list string
}.

(** How a computation ends: normally with a value, by [sys.exit(status)],
    or with an exception on its way up. *)
Inductive flow (A : Type) : Type :=
| Normal (a : A)
| SystemExit (status : Z)
| Raise (e : Exc.exn).

Arguments Normal {A} a.
Arguments SystemExit {A} status.
Arguments Raise {A} e.

Definition M (A : Type) : Type := state -> flow A * state.

Definition ret {A} (a : A) : M A := fun s => (Normal a, s).

Definition bind {A B} (m : M A) (k : A -> M B) : M B :=
  fun s =>
    match m s with
    | (Normal a, s') => k a s'
    | (SystemExit status, s') => (SystemExit status, s')
    | (Raise e, s') => (Raise e, s')
    end.

Notation "x <- m ;; k" := (bind m (fun x => k))
  (at level 61, m at next level, right associativity).
Notation "m ;; k" := (bind m (fun _ => k))
  (at level 61, right associativity).

(** [print(line)]: one more line on standard output. *)
Definition print (line : string) : M unit :=
  fun s => (Normal tt, mkState (violations s) (stdout s ++ [line]) (opened s)).

(** [sys.exit(status)]. *)
Definition sys_exit {A} (status : Z) : M A :=
  fun s => (SystemExit status, s).

(** [violations = []]. *)
Definition violations_init : M unit :=
  fun s => (Normal tt, mkState [] (stdout s) (opened s)).

(** [violations.append(v)]. *)
Definition violations_append (v : violation) : M unit :=
  fun s => (Normal tt, mkState (violations s ++ [v]) (stdout s) (opened s)).

(** Reading the local [violations]. *)
Definition violations_get : M (list violation) :=
  fun s => (Normal (violations s), s).

(** [with open(filepath) as f: line_count = sum(1 for _ in f)].  The
    path is handed to [open]; the count is produced only when the whole
    file has been read. *)
Definition count_lines (fs : FS.t) (filepath : string) : M Z :=
  fun s =>
    let s' := mkState (violations s) (stdout s) (opened s ++ [filepath]) in
    match fs filepath with
    | FS.Text text => (Normal (TextFile.line_count text), s')
    | FS.ReadRaises _ e => (Raise e, s')
    | FS.OpenRaises e => (Raise e, s')
    end.

(** [try: body  except Exception as e: handler e].  Only an exception
    that is an instance of [Exception] reaches the handler; [SystemExit]
    and the other exceptions pass through. *)
Definition try_except_Exception {A} (body : M A) (handler : Exc.exn -> M A)
  : M A :=
  fun s =>
    match body s with
    | (Raise e, s') =>
        if Exc.is_Exception e then handler e s' else (Raise e, s')
    | r => r
    end.

(** [for x in xs: body x]. *)
Fixpoint for_each {A} (xs : list A) (body : A -> M unit) : M unit :=
  match xs with
  | [] => ret tt
  | x :: rest => body x ;; for_each rest body
  end.

End Run.

(** ** The program *)

Import Run.

(** [f"Error reading {filepath}: {e}"]. *)
Definition error_line (filepath : string) (e : Exc.exn) : string :=
  "Error reading " ++ filepath ++ ": " ++ Exc.str e.

Definition header : string := "Files exceeding 300 lines:".

(** [f"  {filepath}: {count} lines"]. *)
Definition violation_line (v : violation) : string :=
  let (filepath, count) := v in
  "  " ++ filepath ++ ": " ++ PyStr.str_int count ++ " lines".

(** The test of line 9: the path ends in [.py]. *)
Definition qualifies (filepath : string) : bool :=
  PyStr.endswith filepath ".py".

(** The body of the loop over [sys.argv[1:]]. *)
Definition scan_one (fs : FS.t) (filepath : string) : M unit :=
  if negb (qualifies filepath) then ret tt
  else
    try_except_Exception
      (line_count <- count_lines fs filepath ;;
       if line_count >? 300
       then violations_append (filepath, line_count)
       else ret tt)
      (fun e =>
         print (error_line filepath e) ;;
         sys_exit 1).

(** The report that follows the loop. *)
Definition report : M unit :=
  vs <- violations_get ;;
  match vs with
  | [] => ret tt
  | _ :: _ =>
      print header ;;
      for_each vs (fun v => print (violation_line v)) ;;
      sys_exit 1
  end.

(** [sys.argv[1:]], the candidate paths. *)
Definition candidates (argv : list string) : list string := skipn 1 argv.

(** [main()], with [sys.argv] and the file system as inputs. *)
Definition main (argv : list string) (fs : FS.t) : M unit :=
  violations_init ;;
  for_each (candidates argv) (scan_one fs) ;;
  report ;;
  sys_exit 0.

(** The state in which the process starts. *)
Definition start : state := mkState [] [] [].

(** The scan: the part of [main] up to the end of the loop. *)
Definition scan (argv : list string) (fs : FS.t) : M unit :=
  violations_init ;;
  for_each (candidates argv) (scan_one fs).

(** How the process ends. *)
Inductive ending : Type :=
| Exit (status : Z)
| Traceback (e : Exc.exn).

(** The script run as a program: [main()] is called; [SystemExit] sets
    the exit status, a return from [main] would end the process with
    status 0, and any other exception leaves [main] uncaught. *)
Definition run (argv : list string) (fs : FS.t) : ending * state :=
  match main argv fs start with
  | (Normal _, s) => (Exit 0, s)
  | (SystemExit status, s) => (Exit status, s)
  | (Raise e, s) => (Traceback e, s)
  end.

(** What standard output holds: each printed line followed by LF. *)
Fixpoint rendered (lines : list string) : string :=
  match lines with
  | [] => EmptyString
  | line :: rest => line ++ String TextFile.LF (rendered rest)
  end.

(** *** Sample runs *)

(** A text of [n] lines, each terminated by LF. *)
Fixpoint lines_of (n : nat) : string :=
  match n with
  | O => EmptyString
  | S n' => String "x" (String TextFile.LF (lines_of n'))
  end.

Definition decode_error : Exc.exn :=
  Exc.mkExn Exc.UnicodeDecodeError
    "'utf-8' codec can't decode byte 0xff in position 2: invalid start byte".

Definition not_found (p : string) : Exc.exn :=
  Exc.mkExn Exc.FileNotFoundError
    ("[Errno 2] No such file or directory: '" ++ p ++ "'").

Definition sample_fs : FS.t := fun p =>
  if String.eqb p "a.py" then FS.Text (lines_of 50)
  else if String.eqb p "b.py" then FS.Text (lines_of 400)
  else if String.eqb p "c.py" then FS.Text (lines_of 305)
  else if String.eqb p "edge.py" then FS.Text (lines_of 300)
  else if String.eqb p "over.py" then FS.Text (lines_of 301)
  else if String.eqb p "binary.py" then
    FS.ReadRaises (lines_of 2)
      decode_error
  else if String.eqb p "stop.py" then
    FS.OpenRaises (Exc.mkExn Exc.KeyboardInterrupt EmptyString)
  else FS.OpenRaises (not_found p).

(** ** The scan as a function of its input

    The functions below describe, from the candidate paths and the file
    system alone, what the loop of [main] goes through; the lemmas of the
    next part show that [main] computes them. *)

(** The first qualifying path whose open or read raises, with what it
    raises. *)
Fixpoint first_failure (fs : FS.t) (paths : list string)
  : option (string * Exc.exn) :=
  match paths with
  | [] => None
  | p :: rest =>
      if qualifies p then
        match FS.failure (fs p) with
        | Some e => Some (p, e)
        | None => first_failure fs rest
        end
      else first_failure fs rest
  end.

(** The paths that the loop reaches: all of them up to and including the
    first qualifying path whose open or read raises. *)
Fixpoint reached (fs : FS.t) (paths : list string) : list string :=
  match paths with
  | [] => []
  | p :: rest =>
      if qualifies p then
        match FS.failure (fs p) with
        | Some _ => [p]
        | None => p :: reached fs rest
        end
      else p :: reached fs rest
  end.

(** The line count of the file at a path (0 where there is no text). *)
Definition count_at (fs : FS.t) (p : string) : Z :=
  match fs p with
  | FS.Text text => TextFile.line_count text
  | _ => 0
  end.

(** The path qualifies, its file reads to the end and has more than
    300 lines. *)
Definition exceeds (fs : FS.t) (p : string) : bool :=
  qualifies p
  && match fs p with
     | FS.Text text => TextFile.line_count text >? 300
     | _ => false
     end.

(** The violations among the given paths, in their order. *)
Definition found (fs : FS.t) (paths : list string) : list violation :=
  map (fun p => (p, count_at fs p)) (filter (exceeds fs) paths).

(** How the loop ends. *)
Definition loop_flow (fs : FS.t) (paths : list string) : flow unit :=
  match first_failure fs paths with
  | None => Normal tt
  | Some (_, e) => if Exc.is_Exception e then SystemExit 1 else Raise e
  end.

(** What the loop prints. *)
Definition loop_output (fs : FS.t) (paths : list string) : list string :=
  match first_failure fs paths with
  | None => []
  | Some (p, e) => if Exc.is_Exception e then [error_line p e] else []
  end.

(** The three shapes of standard output. *)
Definition is_silent (out : list string) : Prop := out = [].

Definition is_error_report (out : list string) : Prop :=
  exists p e, out = [error_line p e].

Definition is_violation_report (out : list string) : Prop :=
  exists v vs, out = header :: map violation_line (v :: vs).

(** The character [c] occurs in the string. *)
Fixpoint mentions (c : ascii) (s : string) : bool :=
  match s with
  | EmptyString => false
  | String d rest => Ascii.eqb d c || mentions c rest
  end.

Definition colon : ascii := ":"%char.

(** Every qualifying path of the list names a file that reads to the end
    and has at most 300 lines. *)
Definition all_within_limit (fs : FS.t) (paths : list string) : Prop :=
  forall p, In p paths -> qualifies p = true ->
    exists text, fs p = FS.Text text /\ TextFile.line_count text <= 300.

(** ** Standard output that can refuse a write

    [main] prints at three places, none of them inside the [try]: in the
    handler and twice in the report.  Here [print] can raise. *)

Module IO.

(** What standard output does with a write, given the lines written
    before it: it takes the line, or the write raises. *)
Definition device : Type := list string -> string -> option Exc.exn.

(** The standard output that takes every line. *)
Definition accepting : device := fun _ _ => None.

(** [print(line)] on a device: the line is written, or the exception is
    raised and nothing is written. *)
Definition print (dev : device) (line : string) : M unit :=
  fun s =>
    match dev (stdout s) line with
    | None => Run.print line s
    | Some e => (Raise e, s)
    end.

(** The body of the loop, lines 9 to 18. *)
Definition scan_one (dev : device) (fs : FS.t) (filepath : string)
  : M unit :=
  if negb (qualifies filepath) then ret tt
  else
    try_except_Exception
      (line_count <- count_lines fs filepath ;;
       if line_count >? 300
       then violations_append (filepath, line_count)
       else ret tt)
      (fun e =>
         print dev (error_line filepath e) ;;
         sys_exit 1).

(** The report, lines 20 to 24. *)
Definition report (dev : device) : M unit :=
  vs <- violations_get ;;
  match vs with
  | [] => ret tt
  | _ :: _ =>
      print dev header ;;
      for_each vs (fun v => print dev (violation_line v)) ;;
      sys_exit 1
  end.

(** [main()]. *)
Definition main (dev : device) (argv : list string) (fs : FS.t) : M unit :=
  violations_init ;;
  for_each (candidates argv) (scan_one dev fs) ;;
  report dev ;;
  sys_exit 0.

(** The script run as a program. *)
Definition run (dev : device) (argv : list string) (fs : FS.t)
  : ending * state :=
  match main dev argv fs start with
  | (Normal _, s) => (Exit 0, s)
  | (SystemExit status, s) => (Exit status, s)
  | (Raise e, s) => (Traceback e, s)
  end.

(** The lines written one after the other behind [written], up to the
    first write that raises: what is on standard output then, and the
    exception if there is one. *)
Fixpoint write_all (dev : device) (written lines : list string)
  : list string * option Exc.exn :=
  match lines with
  | [] => (written, None)
  | line :: rest =>
      match dev written line with
      | Some e => (written, Some e)
      | None => write_all dev (written ++ [line]) rest
      end
  end.

(** A standard output that is closed after [n] lines. *)
Definition closes_after (n : nat) : device :=
  fun written _ =>
    if (n <=? List.length written)%nat
    then Some (Exc.mkExn Exc.OSError "[Errno 32] Broken pipe")
    else None.

End IO.

(** * Properties *)

(** ** Suffix test *)

Section Suffix.

Local Open Scope nat_scope.

Lemma substring_all (s : string) : substring 0 (String.length s) s = s.
Proof.
  induction s as [|c s IH]; simpl; [reflexivity | now rewrite IH].
Qed.

Lemma substring_skip (pre t : string) (n : nat) :
  substring (String.length pre) n (pre ++ t) = substring 0 n t.
Proof.
  induction pre as [|c pre IH]; simpl; [reflexivity | exact IH].
Qed.

Lemma substring_split (s : string) (n : nat) :
  n <= String.length s ->
  s = substring 0 n s ++ substring n (String.length s - n) s.
Proof.
  revert n; induction s as [|c s IH]; intros n Hn; simpl in *.
  - destruct n; [reflexivity | lia].
  - destruct n as [|n]; simpl.
    + now rewrite substring_all.
    + f_equal. apply IH. lia.
Qed.

Lemma length_app (s t : string) :
  String.length (s ++ t) = String.length s + String.length t.
Proof.
  induction s as [|c s IH]; simpl; [reflexivity | now rewrite IH].
Qed.

(** [endswith] holds exactly of the strings that are some prefix followed
    by the suffix. *)
Lemma endswith_spec (s suffix : string) :
  PyStr.endswith s suffix = true <-> exists stem, s = stem ++ suffix.
Proof.
  unfold PyStr.endswith. rewrite andb_true_iff, Nat.leb_le, String.eqb_eq.
  split.
  - intros [Hlen Hsub].
    exists (substring 0 (String.length s - String.length suffix) s).
    pose proof (substring_split s (String.length s - String.length suffix))
      as E.
    replace (String.length s - (String.length s - String.length suffix))
      with (String.length suffix) in E by lia.
    rewrite Hsub in E. apply E. lia.
  - intros [stem ->]. rewrite length_app. split; [lia|].
    replace (String.length stem + String.length suffix - String.length suffix)
      with (String.length stem) by lia.
    rewrite substring_skip. apply substring_all.
Qed.

Lemma append_assoc (s t u : string) :
  ((s ++ t) ++ u = s ++ (t ++ u))%string.
Proof.
  induction s as [|c s IH]; simpl; [reflexivity | now rewrite IH].
Qed.

End Suffix.

(** ** Counting lines *)

Section Lines.

Import TextFile.

Lemma sum_from (xs : list Z) (a : Z) :
  fold_left Z.add xs a = a + fold_left Z.add xs 0.
Proof.
  revert a; induction xs as [|x xs IH]; intros a; simpl; [lia|].
  rewrite (IH (a + x)), (IH x). lia.
Qed.

(** Summing a 1 for every element counts the elements. *)
Lemma sum_ones {A} (xs : list A) :
  PyStr.sum (map (fun _ => 1) xs) = Z.of_nat (List.length xs).
Proof.
  unfold PyStr.sum. induction xs as [|x xs IH]; [reflexivity|].
  cbn [map fold_left List.length]. rewrite sum_from, IH. lia.
Qed.

Lemma snoc_not_empty (cur : string) (c : ascii) : snoc cur c <> EmptyString.
Proof. destruct cur; discriminate. Qed.

Lemma last_char_cons (c : ascii) (rest : string) :
  exists d, last_char (String c rest) = Some d.
Proof.
  revert c; induction rest as [|c' rest IH]; intros c.
  - now exists c.
  - destruct (IH c') as [d Hd]. exists d. exact Hd.
Qed.

(** Once the text is not empty, what was read before it does not matter. *)
Lemma pending_nonempty (cur cur' : string) (c : ascii) (rest : string) :
  pending cur (String c rest) = pending cur' (String c rest).
Proof.
  unfold pending. destruct (last_char_cons c rest) as [d ->]. reflexivity.
Qed.

Lemma pending_cons (cur : string) (c : ascii) (rest : string) :
  pending cur (String c rest)
  = match rest with
    | EmptyString => negb (is_LF c || is_CR c)
    | _ => pending EmptyString rest
    end.
Proof.
  destruct rest as [|c' rest]; [reflexivity|].
  unfold pending at 1. change (last_char (String c (String c' rest)))
    with (last_char (String c' rest)).
  destruct (last_char_cons c' rest) as [d Hd].
  unfold pending. now rewrite Hd.
Qed.

Lemma pending_after_char (cur : string) (c : ascii) (rest : string) :
  is_LF c = false -> is_CR c = false ->
  pending (snoc cur c) rest = pending cur (String c rest).
Proof.
  intros HLF HCR. rewrite pending_cons.
  destruct rest as [|c' rest].
  - unfold pending; cbn [last_char]. rewrite HLF, HCR.
    destruct (snoc cur c) eqn:E; [now apply snoc_not_empty in E | reflexivity].
  - apply pending_nonempty.
Qed.

(** The number of lines handed over by the iteration: one per terminator,
    and one more for a pending partial line. *)
Lemma iter_from_length (text cur : string) :
  Z.of_nat (List.length (iter_from cur text))
  = terminators text + (if pending cur text then 1 else 0).
Proof.
  revert cur; induction text as [|c rest IH]; intros cur.
  - cbn [iter_from terminators]. unfold pending; cbn [last_char].
    destruct cur; reflexivity.
  - cbn [iter_from terminators].
    destruct (is_LF c) eqn:HLF.
    + cbn [List.length]. rewrite Nat2Z.inj_succ, IH, pending_cons.
      destruct rest as [|c' rest'];
        [unfold pending; cbn [last_char]; rewrite HLF; cbn [orb negb]|]; lia.
    + destruct (is_CR c) eqn:HCR.
      * rewrite pending_cons.
        destruct rest as [|c' rest'].
        { cbn [List.length orb negb]. rewrite HLF, HCR. reflexivity. }
        specialize (IH EmptyString).
        destruct (is_LF c') eqn:HLF'.
        { cbn [iter_from terminators] in IH. rewrite HLF' in IH.
          cbn [List.length] in *. lia. }
        cbn [List.length]. lia.
      * rewrite IH. now rewrite pending_after_char.
Qed.

Lemma terminators_nonneg (text : string) : 0 <= terminators text.
Proof.
  induction text as [|c rest IH]; cbn [terminators]; [lia|].
  destruct (is_LF c); [lia|]. destruct (is_CR c); [|exact IH].
  destruct rest as [|c' rest']; [lia|].
  revert IH. cbn [terminators]. destruct (is_LF c'); lia.
Qed.

End Lines.

(** ** The loop *)

Open Scope list_scope.

Section Loop.

Variable fs : FS.t.

Lemma scan_one_skip (p : string) (s : state) :
  qualifies p = false -> scan_one fs p s = (Normal tt, s).
Proof. intros H. unfold scan_one. now rewrite H. Qed.

Lemma scan_one_text (p text : string) (s : state) :
  qualifies p = true -> fs p = FS.Text text ->
  scan_one fs p s
  = (Normal tt,
     mkState
       (violations s
        ++ (if TextFile.line_count text >? 300
            then [(p, TextFile.line_count text)] else []))
       (stdout s) (opened s ++ [p])).
Proof.
  intros Hq Hfs. unfold scan_one, try_except_Exception, bind, count_lines.
  rewrite Hq, Hfs. cbn [negb].
  destruct (TextFile.line_count text >? 300); cbn.
  - reflexivity.
  - now rewrite app_nil_r.
Qed.

Lemma scan_one_raises (p : string) (e : Exc.exn) (s : state) :
  qualifies p = true -> FS.failure (fs p) = Some e ->
  scan_one fs p s
  = if Exc.is_Exception e
    then (SystemExit 1,
          mkState (violations s) (stdout s ++ [error_line p e])
                  (opened s ++ [p]))
    else (Raise e, mkState (violations s) (stdout s) (opened s ++ [p])).
Proof.
  intros Hq Hf. unfold scan_one, try_except_Exception, bind, count_lines.
  rewrite Hq. cbn [negb].
  destruct (fs p) as [text|before e'|e']; cbn in Hf;
    [discriminate | injection Hf as -> | injection Hf as ->];
    destruct (Exc.is_Exception e); reflexivity.
Qed.

Lemma failure_none_text (p : string) :
  FS.failure (fs p) = None -> exists text, fs p = FS.Text text.
Proof.
  destruct (fs p) as [text| |]; cbn; [eauto | discriminate | discriminate].
Qed.

Lemma found_cons (p : string) (rest : list string) :
  found fs (p :: rest)
  = (if exceeds fs p then [(p, count_at fs p)] else []) ++ found fs rest.
Proof.
  unfold found. cbn [filter]. destruct (exceeds fs p); reflexivity.
Qed.

(** The loop of [main], from any state: its flow, and the state it leaves
    behind. *)
Lemma for_each_scan (paths : list string) (s : state) :
  for_each paths (scan_one fs) s
  = (loop_flow fs paths,
     mkState (violations s ++ found fs (reached fs paths))
             (stdout s ++ loop_output fs paths)
             (opened s ++ filter qualifies (reached fs paths))).
Proof.
  revert s; induction paths as [|p rest IH]; intros s.
  - cbn. rewrite !app_nil_r. now destruct s.
  - cbn [for_each]. unfold bind at 1.
    unfold loop_flow, loop_output.
    cbn [first_failure reached].
    destruct (qualifies p) eqn:Hq.
    + destruct (FS.failure (fs p)) as [e|] eqn:Hf.
      * rewrite (scan_one_raises p e s Hq Hf).
        rewrite found_cons. unfold exceeds. rewrite Hq. cbn [filter].
        rewrite Hq.
        assert (Hno : match fs p with
                      | FS.Text text => TextFile.line_count text >? 300
                      | _ => false
                      end = false)
          by (destruct (fs p); [discriminate | reflexivity | reflexivity]).
        rewrite Hno. cbn [andb app]. unfold found; cbn [filter map].
        rewrite !app_nil_r.
        destruct (Exc.is_Exception e); rewrite ?app_nil_r; reflexivity.
      * destruct (failure_none_text p Hf) as [text Htext].
        rewrite (scan_one_text p text s Hq Htext), IH.
        unfold loop_flow, loop_output. cbn [violations stdout opened].
        rewrite found_cons. unfold exceeds, count_at.
        rewrite Hq, Htext. cbn [andb filter]. rewrite Hq.
        rewrite <- !app_assoc. reflexivity.
    + rewrite (scan_one_skip p s Hq), IH.
      unfold loop_flow, loop_output.
      rewrite found_cons. unfold exceeds. rewrite Hq. cbn [andb app filter].
      rewrite Hq. reflexivity.
Qed.

Lemma for_each_print (vs : list violation) (s : state) :
  for_each vs (fun v => print (violation_line v)) s
  = (Normal tt,
     mkState (violations s) (stdout s ++ map violation_line vs) (opened s)).
Proof.
  revert s; induction vs as [|v vs IH]; intros s.
  - cbn. rewrite app_nil_r. now destruct s.
  - cbn [for_each]. unfold bind at 1. unfold print at 1.
    rewrite IH. cbn [violations stdout opened map].
    rewrite <- app_assoc. reflexivity.
Qed.

End Loop.

(** ** Whole runs *)

Section Runs.

Variable fs : FS.t.

Lemma first_failure_none (paths : list string) :
  first_failure fs paths = None
  <-> (forall p, In p paths -> qualifies p = true ->
                 FS.failure (fs p) = None).
Proof.
  induction paths as [|q rest IH]; cbn [first_failure].
  - split; [intros _ p [] | reflexivity].
  - destruct (qualifies q) eqn:Hq.
    + destruct (FS.failure (fs q)) as [e|] eqn:Hf.
      * split; [discriminate|]. intros H.
        specialize (H q (or_introl eq_refl) Hq). congruence.
      * rewrite IH. split.
        -- intros H p [<-|Hin] Hp; [exact Hf | now apply H].
        -- intros H p Hin Hp. apply H; [now right | exact Hp].
    + rewrite IH. split.
      * intros H p [<-|Hin] Hp; [congruence | now apply H].
      * intros H p Hin Hp. apply H; [now right | exact Hp].
Qed.

Lemma reached_all (paths : list string) :
  first_failure fs paths = None -> reached fs paths = paths.
Proof.
  induction paths as [|q rest IH]; cbn [first_failure reached];
    [reflexivity|].
  destruct (qualifies q).
  - destruct (FS.failure (fs q)); [discriminate|].
    intros H. now rewrite IH.
  - intros H. now rewrite IH.
Qed.

(** A first failure splits the input: the paths before it were scanned
    without an exception, the paths after it are not reached. *)
Lemma first_failure_split (paths : list string) (p : string) (e : Exc.exn) :
  first_failure fs paths = Some (p, e) ->
  exists pre post,
    paths = pre ++ p :: post
    /\ first_failure fs pre = None
    /\ qualifies p = true
    /\ FS.failure (fs p) = Some e
    /\ reached fs paths = pre ++ [p].
Proof.
  induction paths as [|q rest IH]; cbn [first_failure reached];
    [discriminate|].
  destruct (qualifies q) eqn:Hq.
  - destruct (FS.failure (fs q)) as [e'|] eqn:Hf.
    + intros [= -> ->]. exists [], rest. cbn. auto.
    + intros H. destruct (IH H) as (pre & post & -> & Hpre & Hp & He & Hr).
      exists (q :: pre), post. cbn [app first_failure].
      rewrite Hq, Hf, Hr. auto.
  - intros H. destruct (IH H) as (pre & post & -> & Hpre & Hp & He & Hr).
    exists (q :: pre), post. cbn [app first_failure].
    rewrite Hq, Hr. auto.
Qed.

Lemma scan_eq (argv : list string) :
  scan argv fs start
  = (loop_flow fs (candidates argv),
     mkState (found fs (reached fs (candidates argv)))
             (loop_output fs (candidates argv))
             (filter qualifies (reached fs (candidates argv)))).
Proof.
  unfold scan, bind, violations_init. now rewrite for_each_scan.
Qed.

(** [main] is the scan followed, when the loop ends normally, by the
    report and [sys.exit(0)]. *)
Lemma main_after_scan (argv : list string) :
  main argv fs start
  = match scan argv fs start with
    | (Normal _, s) => (report ;; sys_exit 0) s
    | (SystemExit status, s) => (SystemExit status, s)
    | (Raise e, s) => (Raise e, s)
    end.
Proof.
  unfold main, scan, bind, violations_init.
  destruct (for_each _ _ _) as [[[]|status|e] s]; reflexivity.
Qed.

Lemma report_eq (s : state) :
  (report ;; sys_exit 0) s
  = match violations s with
    | [] => (@SystemExit unit 0, s)
    | _ :: _ =>
        (@SystemExit unit 1,
         mkState (violations s)
                 (stdout s ++ header :: map violation_line (violations s))
                 (opened s))
    end.
Proof.
  unfold report, bind, violations_get, sys_exit, ret.
  destruct (violations s) as [|v vs] eqn:Hvs; [reflexivity|].
  unfold print at 1. rewrite for_each_print.
  cbn [violations stdout opened]. rewrite Hvs, <- app_assoc. reflexivity.
Qed.

(** A run whose scan reaches the end of the loop. *)
Lemma run_complete (argv : list string) (s : state) :
  scan argv fs start = (Normal tt, s) ->
  first_failure fs (candidates argv) = None
  /\ violations s = found fs (candidates argv)
  /\ stdout s = []
  /\ opened s = filter qualifies (candidates argv)
  /\ run argv fs
     = match violations s with
       | [] => (Exit 0, s)
       | _ :: _ =>
           (Exit 1,
            mkState (violations s)
                    (header :: map violation_line (violations s))
                    (opened s))
       end.
Proof.
  intros Hscan.
  assert (Hff : first_failure fs (candidates argv) = None).
  { rewrite scan_eq in Hscan. unfold loop_flow in Hscan.
    destruct (first_failure fs (candidates argv)) as [[p e]|];
      [|reflexivity].
    destruct (Exc.is_Exception e); discriminate. }
  assert (Hs : s = mkState (found fs (candidates argv)) []
                           (filter qualifies (candidates argv))).
  { rewrite scan_eq in Hscan. unfold loop_output in Hscan.
    rewrite Hff, (reached_all _ Hff) in Hscan. congruence. }
  split; [exact Hff|].
  unfold run. rewrite main_after_scan, Hscan, report_eq.
  subst s. cbn [violations stdout opened app].
  repeat split. destruct (found fs (candidates argv)); reflexivity.
Qed.

(** A run whose scan meets a failure. *)
Lemma run_aborted (argv : list string) (p : string) (e : Exc.exn) :
  first_failure fs (candidates argv) = Some (p, e) ->
  run argv fs
  = (if Exc.is_Exception e then Exit 1 else Traceback e,
     mkState (found fs (reached fs (candidates argv)))
             (if Exc.is_Exception e then [error_line p e] else [])
             (filter qualifies (reached fs (candidates argv)))).
Proof.
  intros Hff. unfold run. rewrite main_after_scan, scan_eq.
  unfold loop_flow, loop_output. rewrite Hff.
  destruct (Exc.is_Exception e); reflexivity.
Qed.

(** Every run ends either as [run_complete] or as [run_aborted] says. *)
Lemma scan_cases (argv : list string) :
  (exists s, scan argv fs start = (Normal tt, s))
  \/ (exists p e, first_failure fs (candidates argv) = Some (p, e)).
Proof.
  destruct (first_failure fs (candidates argv)) as [[p e]|] eqn:Hff.
  - right. eauto.
  - left. rewrite scan_eq. unfold loop_flow. rewrite Hff. eauto.
Qed.

(** The local list and the trace of [open] at the end of any run. *)
Lemma run_state (argv : list string) :
  violations (snd (run argv fs)) = found fs (reached fs (candidates argv))
  /\ opened (snd (run argv fs))
     = filter qualifies (reached fs (candidates argv)).
Proof.
  destruct (scan_cases argv) as [[s Hs]|(p & e & Hff)].
  - destruct (run_complete argv s Hs) as (Hff & Hv & Ho & Hop & Hrun).
    rewrite Hrun, (reached_all _ Hff), <- Hv, <- Hop.
    destruct (violations s) eqn:E; cbn [snd violations opened];
      rewrite ?E; split; reflexivity.
  - rewrite (run_aborted argv p e Hff). split; reflexivity.
Qed.

End Runs.

(** ** Membership in the list of violations *)

Lemma In_found (fs : FS.t) (paths : list string) (p : string) (c : Z) :
  In (p, c) (found fs paths)
  <-> In p paths /\ exceeds fs p = true /\ c = count_at fs p.
Proof.
  unfold found. rewrite in_map_iff. split.
  - intros (q & [= -> <-] & Hin). apply filter_In in Hin. tauto.
  - intros (Hin & Hex & ->). exists p. split; [reflexivity|].
    apply filter_In. tauto.
Qed.

Lemma exceeds_text (fs : FS.t) (p text : string) :
  qualifies p = true -> fs p = FS.Text text ->
  exceeds fs p = (TextFile.line_count text >? 300)
  /\ count_at fs p = TextFile.line_count text.
Proof.
  intros Hq Hfs. unfold exceeds, count_at. now rewrite Hq, Hfs.
Qed.

(** What a completed run prints is read off the list of violations. *)
Lemma complete_stdout (fs : FS.t) (argv : list string) (s : state) :
  scan argv fs start = (Normal tt, s) ->
  violations (snd (run argv fs)) = violations s
  /\ stdout (snd (run argv fs))
     = match violations s with
       | [] => []
       | _ :: _ => header :: map violation_line (violations s)
       end.
Proof.
  intros Hs. destruct (run_complete fs argv s Hs) as (_ & _ & Ho & _ & ->).
  destruct (violations s) eqn:E; cbn [snd violations stdout];
    rewrite ?E, ?Ho; split; reflexivity.
Qed.

(** * The claims *)

(** ** Line counts *)

(** C7. When a file is opened and read to its end, the count that
    [sum(1 for _ in f)] computes is the number of line records of its
    text: the number of line terminators, plus one when the text ends in
    an unterminated partial line.  The count is never negative, and the
    empty file has 0 lines. *)
Theorem line_count_is_record_count
  (fs : FS.t) (filepath text : string) (s : state) :
  fs filepath = FS.Text text ->
  fst (count_lines fs filepath s) = Normal (TextFile.line_records text)
  /\ TextFile.line_count text = TextFile.line_records text
  /\ 0 <= TextFile.line_count text
  /\ (text = EmptyString -> TextFile.line_count text = 0).
Proof.
  intros Hfs.
  assert (Heq : TextFile.line_count text = TextFile.line_records text).
  { unfold TextFile.line_count, TextFile.iter, TextFile.line_records.
    rewrite sum_ones, iter_from_length. reflexivity. }
  repeat split.
  - unfold count_lines. rewrite Hfs. cbn [fst]. now rewrite Heq.
  - exact Heq.
  - rewrite Heq. unfold TextFile.line_records.
    pose proof (terminators_nonneg text).
    destruct (TextFile.partial_tail text); lia.
  - intros ->. reflexivity.
Qed.

Lemma line_count_is_record_count_witness :
  sample_fs "a.py" = FS.Text (lines_of 50)
  /\ fst (count_lines sample_fs "a.py" start)
     = Normal (TextFile.line_records (lines_of 50)).
Proof.
  split; [reflexivity|].
  apply (line_count_is_record_count sample_fs "a.py" (lines_of 50) start).
  reflexivity.
Defined.

(** ** Read failures *)

(** A path that the run opened and whose open or read raised is the
    first failure of the input. *)
Lemma opened_failure_is_first
  (fs : FS.t) (argv : list string) (p : string) (e : Exc.exn) :
  In p (opened (snd (run argv fs))) ->
  FS.failure (fs p) = Some e ->
  first_failure fs (candidates argv) = Some (p, e).
Proof.
  intros Hop Hf. destruct (run_state fs argv) as [_ Hopened].
  rewrite Hopened in Hop. apply filter_In in Hop as [Hin Hq].
  destruct (first_failure fs (candidates argv)) as [[p' e']|] eqn:Hff.
  - destruct (first_failure_split fs _ p' e' Hff)
      as (pre & post & _ & Hpre & Hq' & Hf' & Hr).
    rewrite Hr in Hin. apply in_app_or in Hin as [Hin|[<-|[]]].
    + rewrite (proj1 (first_failure_none fs pre) Hpre p Hin Hq) in Hf.
      discriminate.
    + congruence.
  - rewrite (reached_all fs _ Hff) in Hin.
    rewrite (proj1 (first_failure_none fs _) Hff p Hin Hq) in Hf.
    discriminate.
Qed.

(** The run in which the open or read of [p] raised an [Exception]. *)
Lemma abort_run
  (fs : FS.t) (argv : list string) (p : string) (e : Exc.exn) :
  In p (opened (snd (run argv fs))) ->
  FS.failure (fs p) = Some e ->
  Exc.is_Exception e = true ->
  exists pre post,
    candidates argv = pre ++ p :: post
    /\ first_failure fs pre = None
    /\ qualifies p = true
    /\ run argv fs
       = (Exit 1,
          mkState (found fs pre) [error_line p e]
                  (filter qualifies pre ++ [p])).
Proof.
  intros Hop Hf He.
  pose proof (opened_failure_is_first fs argv p e Hop Hf) as Hff.
  destruct (first_failure_split fs _ p e Hff)
    as (pre & post & Hsplit & Hpre & Hq & _ & Hr).
  exists pre, post. repeat split; try assumption.
  rewrite (run_aborted fs argv p e Hff), He, Hr.
  f_equal. f_equal.
  - unfold found. rewrite filter_app, map_app. cbn [filter].
    unfold exceeds at 2. rewrite Hq.
    destruct (fs p); cbn in Hf; [discriminate| |];
      cbn [andb map]; now rewrite app_nil_r.
  - rewrite filter_app. cbn [filter]. now rewrite Hq.
Qed.

(** C2. If, in a run, opening or reading a qualifying file fails (raises
    an instance of [Exception]), the program prints exactly one line,
    [Error reading <path>: <failure description>], and exits with
    status 1.  The failing path is the last one opened: the paths that
    follow it in the input are neither opened nor named in the output. *)
Theorem read_failure_aborts
  (argv : list string) (fs : FS.t) (p : string) (e : Exc.exn) :
  In p (opened (snd (run argv fs))) ->
  FS.failure (fs p) = Some e ->
  Exc.is_Exception e = true ->
  fst (run argv fs) = Exit 1
  /\ stdout (snd (run argv fs)) = [error_line p e]
  /\ rendered (stdout (snd (run argv fs)))
     = ("Error reading " ++ p ++ ": " ++ Exc.str e
        ++ String TextFile.LF EmptyString)%string
  /\ exists pre post,
       candidates argv = pre ++ p :: post
       /\ opened (snd (run argv fs)) = filter qualifies pre ++ [p]
       /\ (forall q, In q pre -> qualifies q = true ->
                     FS.failure (fs q) = None).
Proof.
  intros Hop Hf He.
  destruct (abort_run fs argv p e Hop Hf He)
    as (pre & post & Hsplit & Hpre & Hq & Hrun).
  rewrite Hrun. cbn [fst snd stdout opened rendered].
  repeat split.
  - unfold error_line. now rewrite !append_assoc.
  - exists pre, post. repeat split; [exact Hsplit|].
    now apply first_failure_none.
Qed.

Lemma read_failure_aborts_witness :
  fst (run ["prog"; "b.py"; "missing.py"; "c.py"] sample_fs) = Exit 1
  /\ stdout (snd (run ["prog"; "b.py"; "missing.py"; "c.py"] sample_fs))
     = [("Error reading missing.py: "
         ++ "[Errno 2] No such file or directory: 'missing.py'")%string].
Proof.
  assert (Hop : In "missing.py"
                   (opened (snd (run ["prog"; "b.py"; "missing.py"; "c.py"]
                                     sample_fs))))
    by (vm_compute; auto).
  pose proof (read_failure_aborts
                ["prog"; "b.py"; "missing.py"; "c.py"] sample_fs
                "missing.py"
                (not_found "missing.py")
                Hop eq_refl eq_refl) as H.
  split; [exact (proj1 H) | exact (proj1 (proj2 H))].
Defined.

(** ** The report *)

(** C3. When the scan completes with at least one violation, standard
    output is the header [Files exceeding 300 lines:] followed by one
    line per violation, two spaces, the path, a colon and a space, the
    count and [ lines], in the order of the scan, which is the order of
    the input; the exit status is 1. *)
Theorem violation_report_format
  (argv : list string) (fs : FS.t) (s : state) :
  scan argv fs start = (Normal tt, s) ->
  violations s <> [] ->
  fst (run argv fs) = Exit 1
  /\ stdout (snd (run argv fs))
     = "Files exceeding 300 lines:"
       :: map (fun v => ("  " ++ fst v ++ ": " ++ PyStr.str_int (snd v)
                         ++ " lines")%string)
              (violations s)
  /\ violations s
     = map (fun p => (p, count_at fs p))
           (filter (exceeds fs) (candidates argv)).
Proof.
  intros Hs Hne.
  destruct (run_complete fs argv s Hs) as (_ & Hv & _ & _ & Hrun).
  rewrite Hrun. destruct (violations s) as [|v vs] eqn:E; [congruence|].
  cbn [fst snd stdout]. repeat split.
  - f_equal. apply map_ext. intros [p c]. reflexivity.
  - exact Hv.
Qed.

Lemma violation_report_format_witness :
  fst (run ["prog"; "a.py"; "b.py"] sample_fs) = Exit 1
  /\ rendered (stdout (snd (run ["prog"; "a.py"; "b.py"] sample_fs)))
     = "Files exceeding 300 lines:
  b.py: 400 lines
"%string.
Proof.
  assert (Hs : scan ["prog"; "a.py"; "b.py"] sample_fs start
               = (Normal tt, mkState [("b.py", 400)] [] ["a.py"; "b.py"]))
    by (vm_compute; reflexivity).
  pose proof (violation_report_format _ _ _ Hs ltac:(discriminate)) as H.
  split; [exact (proj1 H)|].
  rewrite (proj1 (proj2 H)). vm_compute. reflexivity.
Defined.

(** C5. When the scan completes with no violation, nothing is printed
    and the exit status is 0.  This is the case of the empty input and of
    every input none of whose paths ends in [.py]. *)
Theorem clean_scan_is_silent (argv : list string) (fs : FS.t) :
  (exists s, scan argv fs start = (Normal tt, s) /\ violations s = [])
  \/ candidates argv = []
  \/ (forall p, In p (candidates argv) -> qualifies p = false) ->
  fst (run argv fs) = Exit 0
  /\ stdout (snd (run argv fs)) = []
  /\ rendered (stdout (snd (run argv fs))) = EmptyString.
Proof.
  intros H.
  assert (Hclean : exists s,
             scan argv fs start = (Normal tt, s) /\ violations s = []).
  { assert (Hskip : (forall p, In p (candidates argv) -> qualifies p = false)
                    -> exists s, scan argv fs start = (Normal tt, s)
                                 /\ violations s = []).
    { intros Hnone.
      assert (Hff : first_failure fs (candidates argv) = None).
      { apply first_failure_none. intros p Hin Hq.
        rewrite (Hnone p Hin) in Hq. discriminate. }
      eexists. rewrite scan_eq. unfold loop_flow. rewrite Hff.
      split; [reflexivity|]. cbn [violations].
      rewrite (reached_all fs _ Hff).
      destruct (found fs (candidates argv)) as [|[q c] vs] eqn:E;
        [reflexivity|].
      assert (Hin : In (q, c) (found fs (candidates argv)))
        by (rewrite E; now left).
      apply In_found in Hin as (Hin & Hex & _). unfold exceeds in Hex.
      rewrite (Hnone q Hin) in Hex. discriminate. }
    destruct H as [H|[H|H]]; [exact H | | now apply Hskip].
    apply Hskip. rewrite H. intros p []. }
  destruct Hclean as (s & Hs & Hvs).
  destruct (run_complete fs argv s Hs) as (_ & _ & Ho & _ & Hrun).
  rewrite Hrun, Hvs. cbn [fst snd]. rewrite Ho. auto.
Qed.

Lemma clean_scan_is_silent_witness :
  fst (run ["prog"; "readme.md"; "edge.py"] sample_fs) = Exit 0
  /\ stdout (snd (run ["prog"; "readme.md"; "edge.py"] sample_fs)) = [].
Proof.
  assert (H : exists s,
             scan ["prog"; "readme.md"; "edge.py"] sample_fs start
             = (Normal tt, s) /\ violations s = []).
  { exists (mkState [] [] ["edge.py"]). vm_compute. auto. }
  pose proof (clean_scan_is_silent _ sample_fs (or_introl H)) as R.
  split; [exact (proj1 R) | exact (proj1 (proj2 R))].
Defined.

(** ** The shapes of standard output *)

Lemma shapes_exclusive (out : list string) :
  ~ (is_silent out /\ is_error_report out)
  /\ ~ (is_silent out /\ is_violation_report out)
  /\ ~ (is_error_report out /\ is_violation_report out).
Proof.
  unfold is_silent, is_error_report, is_violation_report.
  repeat split.
  - intros [-> (p & e & H)]. discriminate.
  - intros [-> (v & vs & H)]. discriminate.
  - intros [(p & e & ->) (v & vs & H)]. discriminate.
Qed.

(** Outputs of different shapes are different texts: nothing, a text
    that starts with [E], a text that starts with [F]. *)
Lemma shapes_render_apart (out1 out2 : list string) :
  (is_silent out1 -> is_error_report out2 ->
   rendered out1 <> rendered out2)
  /\ (is_silent out1 -> is_violation_report out2 ->
      rendered out1 <> rendered out2)
  /\ (is_error_report out1 -> is_violation_report out2 ->
      rendered out1 <> rendered out2).
Proof.
  unfold is_silent, is_error_report, is_violation_report.
  repeat split.
  - intros -> (p & e & ->). discriminate.
  - intros -> (v & vs & ->). discriminate.
  - intros (p & e & ->) (v & vs & ->). discriminate.
Qed.

(** C8. On every run, standard output has exactly one of three shapes:
    nothing, the single line of a read error, or a violation report
    (the header and at least one violation line).  The shapes exclude
    one another, as lists of lines and as texts.  When a read error
    aborts the run, the error line is all that is printed, whatever
    [violations] holds at that point. *)
Theorem stdout_has_one_shape (argv : list string) (fs : FS.t) :
  let out := stdout (snd (run argv fs)) in
  (is_silent out \/ is_error_report out \/ is_violation_report out)
  /\ ~ (is_silent out /\ is_error_report out)
  /\ ~ (is_silent out /\ is_violation_report out)
  /\ ~ (is_error_report out /\ is_violation_report out)
  /\ (forall other,
        (is_silent out -> ~ is_silent other -> rendered out <> rendered other)
        /\ (is_error_report out -> is_violation_report other ->
            rendered out <> rendered other)
        /\ (is_violation_report out -> is_error_report other ->
            rendered out <> rendered other))
  /\ (forall p e,
        In p (opened (snd (run argv fs))) ->
        FS.failure (fs p) = Some e ->
        Exc.is_Exception e = true ->
        out = [error_line p e]
        /\ forall v, In v (violations (snd (run argv fs))) ->
                     ~ In (violation_line v) out).
Proof.
  intros out. split; [|split; [|split; [|split; [|split]]]].
  - unfold out.
    destruct (scan_cases fs argv) as [[s Hs]|(p & e & Hff)].
    + destruct (complete_stdout fs argv s Hs) as [_ ->].
      destruct (violations s) as [|v vs].
      * left. reflexivity.
      * right; right. now exists v, vs.
    + rewrite (run_aborted fs argv p e Hff). cbn [snd stdout].
      destruct (Exc.is_Exception e).
      * right; left. now exists p, e.
      * left. reflexivity.
  - apply shapes_exclusive.
  - apply shapes_exclusive.
  - apply shapes_exclusive.
  - intros other. repeat split.
    + intros -> Hother. destruct other as [|l ls]; [now elim Hother|].
      cbn [rendered]. destruct l; discriminate.
    + apply shapes_render_apart.
    + intros H1 H2 Heq. symmetry in Heq. revert Heq.
      now apply shapes_render_apart.
  - intros p e Hop Hf He.
    destruct (abort_run fs argv p e Hop Hf He)
      as (pre & post & _ & _ & _ & Hrun).
    unfold out. rewrite Hrun. cbn [snd stdout violations].
    split; [reflexivity|].
    intros [q c] _ [H|[]]. discriminate.
Qed.

(** ** Determinism *)

Lemma scan_one_agree (fs1 fs2 : FS.t) (p : string) (s : state) :
  (qualifies p = true -> fs1 p = fs2 p) ->
  scan_one fs1 p s = scan_one fs2 p s.
Proof.
  intros H. unfold scan_one. destruct (qualifies p); [|reflexivity].
  cbn [negb]. unfold try_except_Exception, bind, count_lines.
  now rewrite (H eq_refl).
Qed.

Lemma for_each_agree (fs1 fs2 : FS.t) (paths : list string) :
  (forall p, In p paths -> qualifies p = true -> fs1 p = fs2 p) ->
  forall s, for_each paths (scan_one fs1) s = for_each paths (scan_one fs2) s.
Proof.
  induction paths as [|q rest IH]; intros H s; [reflexivity|].
  cbn [for_each]. unfold bind.
  rewrite (scan_one_agree fs1 fs2 q s (H q (or_introl eq_refl))).
  destruct (scan_one fs2 q s) as [[[]|status|e] s']; try reflexivity.
  apply IH. intros p Hin. apply H. now right.
Qed.

Lemma run_agree (fs1 fs2 : FS.t) (argv : list string) :
  (forall p, In p (candidates argv) -> qualifies p = true -> fs1 p = fs2 p) ->
  run argv fs1 = run argv fs2.
Proof.
  intros H. unfold run, main, bind, violations_init.
  now rewrite (for_each_agree fs1 fs2 (candidates argv) H).
Qed.

(** C9. The checker is deterministic.  Its standard output and exit
    status (and the rest of its final state) are a function of the
    argument list and of the file system at the qualifying paths of that
    list: two runs on the same arguments, over file systems that hold the
    same at those paths, end the same. *)
Theorem run_deterministic (argv : list string) (fs1 fs2 : FS.t) :
  (forall p, In p (candidates argv) -> qualifies p = true -> fs1 p = fs2 p) ->
  run argv fs1 = run argv fs2
  /\ stdout (snd (run argv fs1)) = stdout (snd (run argv fs2))
  /\ fst (run argv fs1) = fst (run argv fs2).
Proof.
  intros H. rewrite (run_agree fs1 fs2 argv H). auto.
Qed.

Lemma run_deterministic_witness :
  run ["prog"; "a.py"; "notes.txt"; "b.py"] sample_fs
  = run ["prog"; "a.py"; "notes.txt"; "b.py"]
        (fun p => if String.eqb p "notes.txt"
                  then FS.Text (lines_of 999)
                  else sample_fs p).
Proof.
  apply (run_deterministic
           ["prog"; "a.py"; "notes.txt"; "b.py"] sample_fs
           (fun p => if String.eqb p "notes.txt"
                     then FS.Text (lines_of 999)
                     else sample_fs p)).
  intros p Hin Hq. cbn in Hin.
  destruct Hin as [<-|[<-|[<-|[]]]]; try reflexivity.
  vm_compute in Hq. discriminate.
Defined.

Lemma stdout_has_one_shape_witness :
  stdout (snd (run ["prog"; "b.py"; "binary.py"; "c.py"] sample_fs))
  = [error_line "binary.py" decode_error]
  /\ In ("b.py", 400)
        (violations (snd (run ["prog"; "b.py"; "binary.py"; "c.py"]
                              sample_fs))).
Proof.
  assert (Hop : In "binary.py"
                   (opened (snd (run ["prog"; "b.py"; "binary.py"; "c.py"]
                                     sample_fs))))
    by (vm_compute; auto).
  pose proof (stdout_has_one_shape
                ["prog"; "b.py"; "binary.py"; "c.py"] sample_fs) as H.
  cbv zeta in H.
  destruct H as (_ & _ & _ & _ & _ & H).
  split.
  - exact (proj1 (H "binary.py"
                    decode_error
                    Hop eq_refl eq_refl)).
  - vm_compute. auto.
Defined.

(** ** The filter *)

Lemma for_each_qualifying (fs : FS.t) (paths : list string) (s : state) :
  for_each (filter qualifies paths) (scan_one fs) s
  = for_each paths (scan_one fs) s.
Proof.
  revert s; induction paths as [|q rest IH]; intros s; [reflexivity|].
  cbn [filter for_each]. destruct (qualifies q) eqn:Hq.
  - cbn [for_each]. unfold bind.
    destruct (scan_one fs q s) as [[[]|status|e] s']; try reflexivity.
    apply IH.
  - unfold bind. rewrite (scan_one_skip fs q s Hq). apply IH.
Qed.

Lemma run_qualifying (fs : FS.t) (argv : list string) :
  run (firstn 1 argv ++ filter qualifies (candidates argv)) fs = run argv fs.
Proof.
  assert (Hc : candidates (firstn 1 argv ++ filter qualifies (candidates argv))
               = filter qualifies (candidates argv))
    by (destruct argv; reflexivity).
  unfold run, main, bind, violations_init. rewrite Hc.
  now rewrite for_each_qualifying.
Qed.

(** C4, the claim as stated fails: a path that ends in [.py] is not read
    when the scan was aborted before reaching it.  Here [missing.py]
    cannot be opened, and [b.py], which follows it, is never opened. *)
Lemma qualifying_path_after_failure_not_read :
  ~ (forall p,
       In p (candidates ["prog"; "missing.py"; "b.py"]) ->
       (In p (opened (snd (run ["prog"; "missing.py"; "b.py"] sample_fs)))
        <-> qualifies p = true)).
Proof.
  intros H.
  assert (Hin : In "b.py" (candidates ["prog"; "missing.py"; "b.py"]))
    by (cbn; auto).
  apply H in Hin. apply proj2 in Hin. specialize (Hin eq_refl).
  vm_compute in Hin. destruct Hin as [Hin|[]]. discriminate.
Qed.

(** C4, amended.  A path that the scan reaches (no qualifying path before
    it raised when opened or read) is handed to [open] if and only if it
    ends with [.py], compared character by character.  Every path that
    does not end with [.py] is skipped silently: it is never opened, and
    the run (output, exit status, files opened) is the run on the input
    without it, whatever the file system holds at it. *)
Theorem reached_path_read_iff_qualifies (argv : list string) (fs : FS.t) :
  opened (snd (run argv fs))
  = filter qualifies (reached fs (candidates argv))
  /\ (forall p, In p (reached fs (candidates argv)) ->
                (In p (opened (snd (run argv fs))) <-> qualifies p = true))
  /\ (forall p, qualifies p = true
                <-> exists stem, p = (stem ++ ".py")%string)
  /\ (forall p, qualifies p = false ->
                ~ In p (opened (snd (run argv fs))))
  /\ run (firstn 1 argv ++ filter qualifies (candidates argv)) fs
     = run argv fs
  /\ (forall fs', (forall p, qualifies p = true -> fs' p = fs p) ->
                  run argv fs' = run argv fs).
Proof.
  destruct (run_state fs argv) as [_ Hop].
  split; [exact Hop|]. split; [|split; [|split; [|split]]].
  - intros p Hin. rewrite Hop, filter_In. tauto.
  - intros p. apply endswith_spec.
  - intros p Hq Hin. rewrite Hop in Hin. apply filter_In in Hin as [_ Hq'].
    congruence.
  - apply run_qualifying.
  - intros fs' H. apply run_agree. intros p _ Hq. now apply H.
Qed.

Lemma reached_path_read_iff_qualifies_witness :
  In "a.py" (opened (snd (run ["prog"; "readme.md"; "a.py"] sample_fs)))
  /\ ~ In "readme.md"
          (opened (snd (run ["prog"; "readme.md"; "a.py"] sample_fs))).
Proof.
  pose proof (reached_path_read_iff_qualifies
                ["prog"; "readme.md"; "a.py"] sample_fs)
    as (_ & Hiff & _ & Hskip & _).
  split.
  - apply Hiff; [vm_compute; auto | reflexivity].
  - apply Hskip. reflexivity.
Defined.

(** The suffix test is case-sensitive and wants the whole suffix. *)
Example qualifies_samples :
  qualifies "pkg/mod.py" = true
  /\ qualifies ".py" = true
  /\ qualifies "MOD.PY" = false
  /\ qualifies "mod.Py" = false
  /\ qualifies "mod.pyc" = false
  /\ qualifies "mod.py " = false
  /\ qualifies "py" = false
  /\ qualifies "readme.md" = false.
Proof. repeat split. Qed.

(** ** Order and multiplicity of the report *)

Lemma count_occ_filter (f : string -> bool) (l : list string) (p : string) :
  count_occ string_dec (filter f l) p
  = if f p then count_occ string_dec l p else 0%nat.
Proof.
  induction l as [|q rest IH]; cbn [filter count_occ].
  - now destruct (f p).
  - destruct (f q) eqn:Hfq; cbn [count_occ];
      destruct (string_dec q p) as [->|Hne]; rewrite IH.
    + now rewrite Hfq.
    + reflexivity.
    + now rewrite Hfq.
    + reflexivity.
Qed.

(** C6, the claim as stated fails, in two ways.  A path given twice is
    reported twice: [b.py] has 400 lines and, passed two times, gets two
    lines.  And a file above the limit is not reported at all when a
    later read aborts the run: [b.py] followed by [missing.py] gets no
    line. *)
Lemma violating_path_not_listed_once :
  stdout (snd (run ["prog"; "b.py"; "b.py"] sample_fs))
  = ["Files exceeding 300 lines:"; "  b.py: 400 lines"; "  b.py: 400 lines"]
  /\ ~ (forall p,
          In p (candidates ["prog"; "b.py"; "b.py"]) ->
          exceeds sample_fs p = true ->
          count_occ string_dec
            (stdout (snd (run ["prog"; "b.py"; "b.py"] sample_fs)))
            (violation_line (p, count_at sample_fs p)) = 1%nat)
  /\ ~ (forall p,
          In p (candidates ["prog"; "b.py"; "missing.py"]) ->
          exceeds sample_fs p = true ->
          count_occ string_dec
            (stdout (snd (run ["prog"; "b.py"; "missing.py"] sample_fs)))
            (violation_line (p, count_at sample_fs p)) = 1%nat).
Proof.
  split; [vm_compute; reflexivity|]. split.
  - intros H. specialize (H "b.py").
    assert (Hin : In "b.py" (candidates ["prog"; "b.py"; "b.py"]))
      by (cbn; auto).
    specialize (H Hin). vm_compute in H. specialize (H eq_refl).
    discriminate.
  - intros H. specialize (H "b.py").
    assert (Hin : In "b.py" (candidates ["prog"; "b.py"; "missing.py"]))
      by (cbn; auto).
    specialize (H Hin). vm_compute in H. specialize (H eq_refl).
    discriminate.
Qed.

(** C6, amended.  When the scan completes, the violation report has one
    line for each occurrence in the input of a qualifying path with more
    than 300 lines, in the order of the input: a path is listed as many
    times as it was given, hence exactly once when the input names it
    once. *)
Theorem report_lists_each_occurrence
  (argv : list string) (fs : FS.t) (s : state) :
  scan argv fs start = (Normal tt, s) ->
  let hits := filter (exceeds fs) (candidates argv) in
  violations s = map (fun p => (p, count_at fs p)) hits
  /\ stdout (snd (run argv fs))
     = match hits with
       | [] => []
       | _ :: _ =>
           header :: map (fun p => violation_line (p, count_at fs p)) hits
       end
  /\ (forall p, In p hits ->
                 In p (candidates argv) /\ qualifies p = true
                 /\ count_at fs p > 300)
  /\ (forall p, exceeds fs p = true ->
                 count_occ string_dec hits p
                 = count_occ string_dec (candidates argv) p)
  /\ (NoDup (candidates argv) ->
      forall p, In p (candidates argv) -> exceeds fs p = true ->
                count_occ string_dec hits p = 1%nat).
Proof.
  intros Hs hits.
  destruct (run_complete fs argv s Hs) as (_ & Hv & _ & _ & _).
  split; [exact Hv|]. split; [|split; [|split]].
  - destruct (complete_stdout fs argv s Hs) as [_ ->].
    rewrite Hv. unfold found. fold hits.
    destruct hits; cbn [map]; [reflexivity|].
    now rewrite map_map.
  - intros p Hin. apply filter_In in Hin as [Hin Hex].
    unfold exceeds in Hex. apply andb_true_iff in Hex as [Hq Hex].
    repeat split; try assumption.
    unfold count_at. destruct (fs p); try discriminate.
    lia.
  - intros p Hex. unfold hits. now rewrite count_occ_filter, Hex.
  - intros Hnd p Hin Hex. unfold hits. rewrite count_occ_filter, Hex.
    now apply (proj1 (NoDup_count_occ' string_dec _) Hnd).
Qed.

Lemma report_lists_each_occurrence_witness :
  scan ["prog"; "a.py"; "b.py"; "readme.md"; "c.py"] sample_fs start
  = (Normal tt,
     mkState [("b.py", 400); ("c.py", 305)] [] ["a.py"; "b.py"; "c.py"])
  /\ stdout (snd (run ["prog"; "a.py"; "b.py"; "readme.md"; "c.py"]
                      sample_fs))
     = ["Files exceeding 300 lines:"; "  b.py: 400 lines";
        "  c.py: 305 lines"].
Proof.
  assert (Hs : scan ["prog"; "a.py"; "b.py"; "readme.md"; "c.py"]
                    sample_fs start
               = (Normal tt,
                  mkState [("b.py", 400); ("c.py", 305)] []
                          ["a.py"; "b.py"; "c.py"]))
    by (vm_compute; reflexivity).
  split; [exact Hs|].
  rewrite (proj1 (proj2 (report_lists_each_occurrence
                           ["prog"; "a.py"; "b.py"; "readme.md"; "c.py"]
                           sample_fs _ Hs))).
  vm_compute. reflexivity.
Defined.

(** ** The scenarios of the specification *)

Example scenario_empty_input :
  run ["prog"] sample_fs = (Exit 0, start).
Proof. reflexivity. Qed.

Example scenario_not_python :
  run ["prog"; "readme.md"] sample_fs = (Exit 0, start).
Proof. reflexivity. Qed.

Example scenario_exactly_300 :
  run ["prog"; "edge.py"] sample_fs = (Exit 0, mkState [] [] ["edge.py"]).
Proof. vm_compute. reflexivity. Qed.

Example scenario_305 :
  fst (run ["prog"; "c.py"] sample_fs) = Exit 1
  /\ rendered (stdout (snd (run ["prog"; "c.py"] sample_fs)))
     = "Files exceeding 300 lines:
  c.py: 305 lines
"%string.
Proof. vm_compute. split; reflexivity. Qed.

Example scenario_50_and_400 :
  fst (run ["prog"; "a.py"; "b.py"] sample_fs) = Exit 1
  /\ rendered (stdout (snd (run ["prog"; "a.py"; "b.py"] sample_fs)))
     = "Files exceeding 300 lines:
  b.py: 400 lines
"%string.
Proof. vm_compute. split; reflexivity. Qed.

Example scenario_missing :
  fst (run ["prog"; "missing.py"] sample_fs) = Exit 1
  /\ rendered (stdout (snd (run ["prog"; "missing.py"] sample_fs)))
     = "Error reading missing.py: [Errno 2] No such file or directory: 'missing.py'
"%string.
Proof. vm_compute. split; reflexivity. Qed.

(** Line iteration on small texts: LF, CR and CR LF all end a line, and
    a trailing partial line is a line. *)
Example line_count_samples :
  TextFile.line_count EmptyString = 0
  /\ TextFile.line_count "one" = 1
  /\ TextFile.line_count (lines_of 3) = 3
  /\ TextFile.line_count
       (String "a" (String TextFile.CR (String TextFile.LF
          (String "b" EmptyString)))) = 2
  /\ TextFile.line_count
       (String "a" (String TextFile.CR (String "b"
          (String TextFile.LF EmptyString)))) = 2
  /\ TextFile.line_count
       (String TextFile.LF (String TextFile.LF EmptyString)) = 2.
Proof. repeat split. Qed.

(** * Further properties of [main] *)

(** ** A run, case by case *)

(** The whole run as a function of the candidate paths and the file
    system: aborted at the first failure, or completed. *)
Lemma run_by_cases (fs : FS.t) (argv : list string) :
  run argv fs
  = match first_failure fs (candidates argv) with
    | Some (p, e) =>
        (if Exc.is_Exception e then Exit 1 else Traceback e,
         mkState (found fs (reached fs (candidates argv)))
                 (if Exc.is_Exception e then [error_line p e] else [])
                 (filter qualifies (reached fs (candidates argv))))
    | None =>
        (match found fs (candidates argv) with
         | [] => Exit 0
         | _ :: _ => Exit 1
         end,
         mkState (found fs (candidates argv))
                 (match found fs (candidates argv) with
                  | [] => []
                  | _ :: _ =>
                      header
                      :: map violation_line (found fs (candidates argv))
                  end)
                 (filter qualifies (candidates argv)))
    end.
Proof.
  destruct (first_failure fs (candidates argv)) as [[p e]|] eqn:Hff.
  - now apply run_aborted.
  - destruct (scan_cases fs argv) as [[s Hs]|(p & e & Hff')];
      [|congruence].
    destruct (run_complete fs argv s Hs) as (_ & Hv & Ho & Hop & ->).
    rewrite <- Hv, <- Hop.
    destruct s as [vs out ops]. cbn [violations stdout opened] in *.
    subst out. destruct vs; reflexivity.
Qed.

Lemma first_failure_app (fs : FS.t) (xs ys : list string) :
  first_failure fs (xs ++ ys)
  = match first_failure fs xs with
    | Some r => Some r
    | None => first_failure fs ys
    end.
Proof.
  induction xs as [|x xs IH]; cbn [app first_failure]; [reflexivity|].
  destruct (qualifies x); [|exact IH].
  destruct (FS.failure (fs x)); [reflexivity | exact IH].
Qed.

Lemma reached_app (fs : FS.t) (xs ys : list string) :
  reached fs (xs ++ ys)
  = match first_failure fs xs with
    | Some _ => reached fs xs
    | None => xs ++ reached fs ys
    end.
Proof.
  induction xs as [|x xs IH]; cbn [app first_failure reached];
    [reflexivity|].
  destruct (qualifies x).
  - destruct (FS.failure (fs x)); [reflexivity|].
    rewrite IH. now destruct (first_failure fs xs).
  - rewrite IH. now destruct (first_failure fs xs).
Qed.

Lemma found_app (fs : FS.t) (xs ys : list string) :
  found fs (xs ++ ys) = found fs xs ++ found fs ys.
Proof. unfold found. now rewrite filter_app, map_app. Qed.

(** ** The exit status as a gate *)

(** No failure and no violation among the paths, in terms of the files. *)
Lemma clean_iff_all_within_limit (fs : FS.t) (paths : list string) :
  first_failure fs paths = None /\ found fs paths = []
  <-> all_within_limit fs paths.
Proof.
  unfold all_within_limit. split.
  - intros [Hff Hnone] p Hin Hq.
    pose proof (proj1 (first_failure_none fs paths) Hff p Hin Hq) as Hf.
    destruct (failure_none_text fs p Hf) as [text Htext].
    exists text. split; [exact Htext|].
    destruct (exceeds_text fs p text Hq Htext) as [Hex Hc].
    destruct (TextFile.line_count text >? 300) eqn:Hgt; [|lia].
    assert (Hin' : In (p, count_at fs p) (found fs paths))
      by (apply In_found; auto).
    rewrite Hnone in Hin'. destruct Hin'.
  - intros H. split.
    + apply first_failure_none. intros p Hin Hq.
      destruct (H p Hin Hq) as (text & -> & _). reflexivity.
    + destruct (found fs paths) as [|[q c] vs] eqn:E; [reflexivity|].
      assert (Hin : In (q, c) (found fs paths)) by (rewrite E; now left).
      apply In_found in Hin as (Hin & Hex & _).
      assert (Hq : qualifies q = true).
      { unfold exceeds in Hex. now apply andb_true_iff in Hex as [Hq _]. }
      destruct (H q Hin Hq) as (text & Htext & Hle).
      destruct (exceeds_text fs q text Hq Htext) as [Hex' _].
      rewrite Hex' in Hex. lia.
Qed.

Lemma exit_zero_iff_clean (fs : FS.t) (argv : list string) :
  fst (run argv fs) = Exit 0
  <-> first_failure fs (candidates argv) = None
      /\ found fs (candidates argv) = [].
Proof.
  rewrite run_by_cases.
  destruct (first_failure fs (candidates argv)) as [[p e]|].
  - cbn [fst]. split.
    + destruct (Exc.is_Exception e); discriminate.
    + intros [H _]. discriminate.
  - cbn [fst]. destruct (found fs (candidates argv)).
    + tauto.
    + split; [discriminate|]. intros [_ H]. discriminate.
Qed.

(** X1. The run exits with status 0 exactly when every qualifying
    candidate path names a file that is read to its end without an
    exception and has at most 300 lines. *)
Theorem exit_zero_iff_all_within_limit (argv : list string) (fs : FS.t) :
  fst (run argv fs) = Exit 0 <-> all_within_limit fs (candidates argv).
Proof.
  rewrite exit_zero_iff_clean. apply clean_iff_all_within_limit.
Qed.

(** X3. The gate composes over batches: a run on the paths [xs ++ ys]
    exits with status 0 exactly when the run on [xs] and the run on [ys]
    both do; and the order of the paths does not matter for that. *)
Theorem exit_zero_of_batches
  (script : string) (xs ys : list string) (fs : FS.t) :
  (fst (run (script :: xs ++ ys) fs) = Exit 0
   <-> fst (run (script :: xs) fs) = Exit 0
       /\ fst (run (script :: ys) fs) = Exit 0)
  /\ (Permutation xs ys ->
      (fst (run (script :: xs) fs) = Exit 0
       <-> fst (run (script :: ys) fs) = Exit 0)).
Proof.
  rewrite !exit_zero_iff_clean, !clean_iff_all_within_limit.
  change (candidates (script :: xs ++ ys)) with (xs ++ ys).
  change (candidates (script :: xs)) with xs.
  change (candidates (script :: ys)) with ys.
  unfold all_within_limit. split.
  - split.
    + intros H. split; intros p Hin; apply H, in_or_app; auto.
    + intros [Hx Hy] p Hin. apply in_app_or in Hin as [Hin|Hin]; auto.
  - intros Hperm. split; intros H p Hin; apply H.
    + apply (Permutation_in p (Permutation_sym Hperm) Hin).
    + apply (Permutation_in p Hperm Hin).
Qed.

Lemma exit_zero_of_batches_witness :
  fst (run ["prog"; "edge.py"; "readme.md"; "a.py"] sample_fs) = Exit 0
  <-> fst (run ["prog"; "a.py"; "edge.py"; "readme.md"] sample_fs) = Exit 0.
Proof.
  apply (proj2 (exit_zero_of_batches
                  "prog" ["edge.py"; "readme.md"; "a.py"]
                  ["a.py"; "edge.py"; "readme.md"] sample_fs)).
  apply Permutation_sym.
  apply (Permutation_cons_app ["edge.py"; "readme.md"] [] "a.py").
  apply Permutation_refl.
Defined.

Lemma exit_zero_iff_all_within_limit_witness :
  fst (run ["prog"; "readme.md"; "edge.py"] sample_fs) = Exit 0.
Proof.
  apply (proj2 (exit_zero_iff_all_within_limit
                  ["prog"; "readme.md"; "edge.py"] sample_fs)).
  intros p Hin Hq. cbn in Hin. destruct Hin as [<-|[<-|[]]].
  - vm_compute in Hq. discriminate.
  - exists (lines_of 300). split; [reflexivity|]. vm_compute. discriminate.
Defined.

(** ** Runs on longer inputs *)

(** X4. Once the open or read of a path has raised, nothing that follows
    it on the command line matters: the run on a longer argument list
    ends the same, with the same output, the same list of violations and
    the same files opened. *)
Theorem paths_after_failure_ignored
  (script : string) (xs ys : list string) (fs : FS.t)
  (p : string) (e : Exc.exn) :
  In p (opened (snd (run (script :: xs) fs))) ->
  FS.failure (fs p) = Some e ->
  run (script :: xs ++ ys) fs = run (script :: xs) fs.
Proof.
  intros Hop Hf.
  pose proof (opened_failure_is_first fs (script :: xs) p e Hop Hf) as Hff.
  change (candidates (script :: xs)) with xs in Hff.
  rewrite !run_by_cases.
  change (candidates (script :: xs ++ ys)) with (xs ++ ys).
  change (candidates (script :: xs)) with xs.
  now rewrite first_failure_app, reached_app, Hff.
Qed.

Lemma paths_after_failure_ignored_witness :
  run ["prog"; "b.py"; "missing.py"; "c.py"; "a.py"] sample_fs
  = run ["prog"; "b.py"; "missing.py"] sample_fs.
Proof.
  apply (paths_after_failure_ignored
           "prog" ["b.py"; "missing.py"] ["c.py"; "a.py"] sample_fs
           "missing.py" (not_found "missing.py")).
  - vm_compute. auto.
  - reflexivity.
Defined.

(** X5. A scan that completes composes with what follows it.  The
    violations and the files opened by the run on [xs ++ ys] are those of
    the scan of [xs] followed by those of the run on [ys].  When the scan
    of [xs] found no violation, the run on [xs ++ ys] prints what the run
    on [ys] prints and ends as it ends. *)
Theorem completed_prefix_composes
  (script : string) (xs ys : list string) (fs : FS.t) (s : state) :
  scan (script :: xs) fs start = (Normal tt, s) ->
  violations (snd (run (script :: xs ++ ys) fs))
  = violations s ++ violations (snd (run (script :: ys) fs))
  /\ opened (snd (run (script :: xs ++ ys) fs))
     = opened s ++ opened (snd (run (script :: ys) fs))
  /\ (violations s = [] ->
      fst (run (script :: xs ++ ys) fs) = fst (run (script :: ys) fs)
      /\ stdout (snd (run (script :: xs ++ ys) fs))
         = stdout (snd (run (script :: ys) fs))).
Proof.
  intros Hs.
  destruct (run_complete fs (script :: xs) s Hs) as (Hff & Hv & _ & Hop & _).
  change (candidates (script :: xs)) with xs in Hff, Hv, Hop.
  destruct (run_state fs (script :: xs ++ ys)) as [Hv1 Ho1].
  destruct (run_state fs (script :: ys)) as [Hv2 Ho2].
  change (candidates (script :: xs ++ ys)) with (xs ++ ys) in Hv1, Ho1.
  change (candidates (script :: ys)) with ys in Hv2, Ho2.
  rewrite reached_app, Hff in Hv1, Ho1.
  split; [|split].
  - now rewrite Hv1, Hv2, Hv, found_app.
  - now rewrite Ho1, Ho2, Hop, filter_app.
  - intros Hclean. rewrite Hv in Hclean.
    rewrite !run_by_cases.
    change (candidates (script :: xs ++ ys)) with (xs ++ ys).
    change (candidates (script :: ys)) with ys.
    rewrite first_failure_app, Hff.
    destruct (first_failure fs ys) as [[q e]|].
    + split; reflexivity.
    + rewrite found_app, Hclean. cbn [app fst snd stdout].
      split; reflexivity.
Qed.

Lemma completed_prefix_composes_witness :
  violations (snd (run ["prog"; "a.py"; "b.py"; "c.py"; "missing.py"]
                       sample_fs))
  = [("b.py", 400)]
    ++ violations (snd (run ["prog"; "c.py"; "missing.py"] sample_fs)).
Proof.
  apply (completed_prefix_composes
           "prog" ["a.py"; "b.py"] ["c.py"; "missing.py"] sample_fs
           (mkState [("b.py", 400)] [] ["a.py"; "b.py"])).
  vm_compute. reflexivity.
Defined.

Lemma reached_is_prefix (fs : FS.t) (paths : list string) :
  exists n, (n <= List.length paths)%nat /\ reached fs paths = firstn n paths.
Proof.
  induction paths as [|p rest (n & Hn & IH)]; cbn [reached].
  - exists 0%nat. split; [apply Nat.le_refl | reflexivity].
  - assert (Hcons : exists m, (m <= List.length (p :: rest))%nat
                              /\ p :: reached fs rest = firstn m (p :: rest)).
    { exists (S n). cbn [List.length firstn]. rewrite IH.
      split; [lia | reflexivity]. }
    destruct (qualifies p); [|exact Hcons].
    destruct (FS.failure (fs p)); [|exact Hcons].
    exists 1%nat. cbn [List.length firstn]. split; [lia | reflexivity].
Qed.

(** X6. The files are opened in the order of the command line, and only
    files named there: the trace of [open] is the list of the qualifying
    paths among the first [n] candidates, for some [n], and the recorded
    violations are the ones among these [n] paths.  A path is opened at
    most as many times as it is named. *)
Theorem opens_follow_input_order (argv : list string) (fs : FS.t) :
  exists n,
    (n <= List.length (candidates argv))%nat
    /\ opened (snd (run argv fs))
       = filter qualifies (firstn n (candidates argv))
    /\ violations (snd (run argv fs))
       = found fs (firstn n (candidates argv))
    /\ (forall p, In p (opened (snd (run argv fs))) ->
                  In p (candidates argv))
    /\ (forall p, (count_occ string_dec (opened (snd (run argv fs))) p
                   <= count_occ string_dec (candidates argv) p)%nat).
Proof.
  destruct (run_state fs argv) as [Hv Ho].
  destruct (reached_is_prefix fs (candidates argv)) as (n & Hn & Hr).
  rewrite Hr in Hv, Ho. exists n.
  split; [exact Hn|]. split; [exact Ho|]. split; [exact Hv|]. split.
  - intros p Hin. rewrite Ho in Hin. apply filter_In in Hin as [Hin _].
    rewrite <- (firstn_skipn n (candidates argv)).
    apply in_or_app. now left.
  - intros p. rewrite Ho, count_occ_filter.
    rewrite <- (firstn_skipn n (candidates argv)) at 2.
    rewrite count_occ_app. destruct (qualifies p); lia.
Qed.

(** ** Reading the report back *)

Section ReportLines.

Local Open Scope string_scope.

Lemma mentions_app (c : ascii) (s t : string) :
  mentions c (s ++ t) = mentions c s || mentions c t.
Proof.
  induction s as [|d s IH]; cbn [append mentions]; [reflexivity|].
  now rewrite IH, orb_assoc.
Qed.

Lemma uint_no_colon (d : Decimal.uint) :
  mentions colon (NilEmpty.string_of_uint d) = false.
Proof. induction d; cbn [NilEmpty.string_of_uint mentions]; auto. Qed.

(** A decimal numeral has no colon in it. *)
Lemma str_int_no_colon (n : Z) : mentions colon (PyStr.str_int n) = false.
Proof.
  unfold PyStr.str_int, NilZero.string_of_int, NilZero.string_of_uint.
  destruct (Z.to_int n) as [d|d]; destruct d eqn:E;
    try reflexivity; rewrite <- E; cbn [mentions];
    rewrite ?uint_no_colon; reflexivity.
Qed.

(** Different integers have different numerals. *)
Lemma str_int_inj (a b : Z) : PyStr.str_int a = PyStr.str_int b -> a = b.
Proof.
  assert (Hok : forall n,
             NilZero.int_of_string (PyStr.str_int n) = Some (Z.to_int n)).
  { intros n. unfold PyStr.str_int. apply NilZero.isi.
    - destruct n as [|q|q]; cbn; try discriminate.
      intros [= H]. now apply Unsigned.to_uint_nonnil in H.
    - destruct n as [|q|q]; cbn; try discriminate.
      intros [= H]. now apply Unsigned.to_uint_nonnil in H. }
  intros H. apply to_int_inj.
  pose proof (Hok a) as Ha. rewrite H, Hok in Ha. congruence.
Qed.

Lemma append_inv_tail (s t u : string) : s ++ u = t ++ u -> s = t.
Proof.
  revert t; induction s as [|c s IH]; intros [|d t] H.
  - reflexivity.
  - apply (f_equal String.length) in H. cbn [append] in H.
    cbn [String.length] in H. rewrite length_app in H. lia.
  - apply (f_equal String.length) in H. cbn [append] in H.
    cbn [String.length] in H. rewrite length_app in H. lia.
  - cbn [append] in H. injection H as -> H. f_equal. now apply IH.
Qed.

Lemma append_inv_head (u s t : string) : u ++ s = u ++ t -> s = t.
Proof.
  induction u as [|c u IH]; cbn [append]; [auto|].
  intros [= H]. now apply IH.
Qed.

(** A path and a colon-free numeral joined by [": "] come apart in one
    way only. *)
Lemma split_at_colon (x y d d' : string) :
  mentions colon d = false -> mentions colon d' = false ->
  x ++ ": " ++ d = y ++ ": " ++ d' -> x = y /\ d = d'.
Proof.
  intros Hd Hd'. revert y; induction x as [|c x IH]; intros [|c' y] H.
  - cbn [append] in H. injection H as H. auto.
  - cbn [append] in H. injection H as _ H.
    apply (f_equal (mentions colon)) in H.
    rewrite mentions_app in H. cbn [append mentions] in H.
    rewrite Hd in H. cbn in H. rewrite orb_true_r in H. discriminate.
  - cbn [append] in H. injection H as _ H.
    apply (f_equal (mentions colon)) in H.
    rewrite mentions_app in H. cbn [append mentions] in H.
    rewrite Hd' in H. cbn in H. rewrite orb_true_r in H. discriminate.
  - cbn [append] in H. injection H as -> H.
    destruct (IH y H) as [-> ->]. auto.
Qed.

Lemma violation_line_inj (v1 v2 : violation) :
  violation_line v1 = violation_line v2 -> v1 = v2.
Proof.
  assert (E : forall p c,
             violation_line (p, c)
             = "  " ++ ((p ++ ": " ++ PyStr.str_int c) ++ " lines")).
  { intros p c. unfold violation_line. now rewrite !append_assoc. }
  destruct v1 as [p1 c1], v2 as [p2 c2]. rewrite !E.
  intros H. apply append_inv_head, append_inv_tail in H.
  destruct (split_at_colon p1 p2 _ _
              (str_int_no_colon c1) (str_int_no_colon c2) H) as [-> Hc].
  now rewrite (str_int_inj c1 c2 Hc).
Qed.

End ReportLines.

(** X7. A line of the violation report determines the path and the
    count it was printed for: two violations with the same line are the
    same violation, so the report can be read back without ambiguity,
    whatever characters the path holds. *)
Theorem violation_line_injective (v1 v2 : violation) :
  violation_line v1 = violation_line v2 <-> v1 = v2.
Proof.
  split; [apply violation_line_inj | now intros ->].
Qed.

Lemma violation_line_injective_witness :
  ("a.py: 3", 305) <> ("a.py", 3305) :> violation
  /\ violation_line ("a.py: 3", 305) <> violation_line ("a.py", 3305).
Proof.
  split; [discriminate|].
  intros H.
  pose proof (proj1 (violation_line_injective
                       ("a.py: 3", 305) ("a.py", 3305)) H) as E.
  discriminate E.
Defined.

(** X8. In a run whose scan completes, a line of the report names a
    qualifying candidate path [p] whose file reads to the end exactly
    when the count on the line is the line count of that file and is
    above 300: the file is printed if and only if it has more than 300
    lines, and never with another count. *)
Theorem printed_iff_over_limit
  (argv : list string) (fs : FS.t) (s : state) (p text : string) (c : Z) :
  scan argv fs start = (Normal tt, s) ->
  In p (candidates argv) ->
  qualifies p = true ->
  fs p = FS.Text text ->
  (In (violation_line (p, c)) (stdout (snd (run argv fs)))
   <-> c = TextFile.line_count text /\ c > 300).
Proof.
  intros Hs Hin Hq Hfs.
  destruct (run_complete fs argv s Hs) as (Hff & _).
  destruct (exceeds_text fs p text Hq Hfs) as [Hex Hc].
  assert (Hfound : In (p, c) (found fs (candidates argv))
                   <-> c = TextFile.line_count text /\ c > 300).
  { rewrite In_found, Hex, Hc. split.
    - intros (_ & Hgt & ->). split; [reflexivity | lia].
    - intros [-> Hgt]. repeat split; [exact Hin | lia]. }
  rewrite <- Hfound, run_by_cases, Hff. cbn [snd stdout].
  destruct (found fs (candidates argv)) as [|v vs] eqn:E.
  - tauto.
  - rewrite <- E. split.
    + intros [H|H].
      * destruct p; discriminate H.
      * apply in_map_iff in H as (v' & Hline & Hv').
        now rewrite <- (violation_line_inj _ _ Hline).
    + intros H. right. now apply in_map.
Qed.

Lemma printed_iff_over_limit_witness :
  In (violation_line ("b.py", 400))
     (stdout (snd (run ["prog"; "a.py"; "b.py"] sample_fs))).
Proof.
  apply (proj2 (printed_iff_over_limit
                  ["prog"; "a.py"; "b.py"] sample_fs
                  (mkState [("b.py", 400)] [] ["a.py"; "b.py"])
                  "b.py" (lines_of 400) 400
                  ltac:(vm_compute; reflexivity)
                  ltac:(cbn; auto) eq_refl eq_refl)).
  split; [vm_compute; reflexivity | reflexivity].
Defined.

(** ** More on line counts *)

Section MoreLines.

Import TextFile.

Lemma line_count_length (text : string) :
  line_count text = Z.of_nat (List.length (iter text)).
Proof. unfold line_count. apply sum_ones. Qed.

Lemma line_count_records (text : string) :
  line_count text = line_records text.
Proof.
  rewrite line_count_length. unfold iter. rewrite iter_from_length.
  reflexivity.
Qed.

(** Every line handed over holds at least one character of the text, or
    is the line that was pending when the text began. *)
Lemma iter_from_bound (text cur : string) :
  (List.length (iter_from cur text)
   <= String.length text
      + match cur with EmptyString => 0 | _ => 1 end)%nat.
Proof.
  revert cur; induction text as [|c rest IH]; intros cur.
  - cbn [iter_from String.length]. destruct cur; cbn [List.length]; lia.
  - cbn [iter_from String.length].
    pose proof (IH EmptyString) as IH0. cbn [Nat.add] in IH0.
    destruct (is_LF c); [cbn [List.length]; lia|].
    destruct (is_CR c).
    + destruct rest as [|c' rest']; [cbn [List.length]; lia|].
      destruct (is_LF c') eqn:HLF'.
      * cbn [iter_from] in IH0. rewrite HLF' in IH0.
        cbn [List.length String.length] in *. lia.
      * cbn [List.length String.length] in *. lia.
    + specialize (IH (snoc cur c)).
      destruct (snoc cur c); lia.
Qed.

Lemma last_char_snoc (text : string) (c : ascii) :
  last_char (snoc text c) = Some c.
Proof.
  unfold snoc. induction text as [|d rest IH]; [reflexivity|].
  cbn [append]. destruct rest as [|d' rest']; [reflexivity|].
  exact IH.
Qed.

Lemma LF_not_CR (c : ascii) : is_LF c = true -> is_CR c = false.
Proof.
  unfold is_LF, is_CR. intros H. apply Ascii.eqb_eq in H. now subst c.
Qed.

(** The terminators of a text to which an LF is appended: one more,
    unless the text ends in CR, which the LF completes to CR LF. *)
Lemma terminators_snoc_LF (text : string) :
  terminators (snoc text LF)
  = terminators text
    + match last_char text with
      | Some c => if is_CR c then 0 else 1
      | None => 1
      end.
Proof.
  induction text as [|c rest IH]; [reflexivity|].
  destruct rest as [|c' rest'].
  - change (snoc (String c EmptyString) LF)
      with (String c (String LF EmptyString)).
    cbn [terminators last_char].
    destruct (is_LF c) eqn:HLF.
    + rewrite (LF_not_CR c HLF). reflexivity.
    + destruct (is_CR c); reflexivity.
  - change (snoc (String c (String c' rest')) LF)
      with (String c (snoc (String c' rest') LF)).
    change (last_char (String c (String c' rest')))
      with (last_char (String c' rest')).
    revert IH.
    change (snoc (String c' rest') LF) with (String c' (snoc rest' LF)).
    cbn [terminators].
    destruct (is_LF c); [lia|]. destruct (is_CR c); [|lia].
    destruct (is_LF c'); lia.
Qed.

End MoreLines.

(** X9. A file never has more lines than characters, so a qualifying
    file of at most 300 characters is never recorded as a violation, in
    any run. *)
Theorem short_file_never_violation
  (argv : list string) (fs : FS.t) (p text : string) :
  fs p = FS.Text text ->
  TextFile.line_count text <= Z.of_nat (String.length text)
  /\ ((String.length text <= 300)%nat ->
      forall c, ~ In (p, c) (violations (snd (run argv fs)))).
Proof.
  intros Hfs.
  assert (Hle : TextFile.line_count text <= Z.of_nat (String.length text)).
  { rewrite line_count_length. unfold TextFile.iter.
    pose proof (iter_from_bound text EmptyString) as H.
    cbn [Nat.add] in H. lia. }
  split; [exact Hle|].
  intros Hshort c Hin.
  destruct (run_state fs argv) as [Hv _]. rewrite Hv in Hin.
  apply In_found in Hin as (_ & Hex & _).
  unfold exceeds in Hex. rewrite Hfs in Hex.
  apply andb_true_iff in Hex as [_ Hex]. lia.
Qed.

Lemma short_file_never_violation_witness :
  ~ In ("a.py", 50) (violations (snd (run ["prog"; "a.py"; "b.py"]
                                          sample_fs))).
Proof.
  apply (proj2 (short_file_never_violation
                  ["prog"; "a.py"; "b.py"] sample_fs
                  "a.py" (lines_of 50) eq_refl)).
  vm_compute. repeat constructor.
Defined.

(** X10. A final newline changes the count by a known amount: appending
    LF to a text adds a line when the text is empty or ends in LF, and
    adds nothing when the text ends in a partial line (the LF terminates
    it) or in CR (the LF completes a CR LF). *)
Theorem line_count_final_newline (text : string) :
  TextFile.line_count (TextFile.snoc text TextFile.LF)
  = TextFile.line_count text
    + match TextFile.last_char text with
      | None => 1
      | Some c => if TextFile.is_LF c then 1 else 0
      end.
Proof.
  rewrite !line_count_records. unfold TextFile.line_records.
  rewrite terminators_snoc_LF. unfold TextFile.partial_tail.
  rewrite last_char_snoc.
  change (TextFile.is_LF TextFile.LF) with true. cbn [orb negb].
  destruct (TextFile.last_char text) as [c|]; [|lia].
  destruct (TextFile.is_LF c) eqn:HLF.
  - rewrite (LF_not_CR c HLF). cbn [orb negb]. lia.
  - destruct (TextFile.is_CR c); cbn [orb negb]; lia.
Qed.

(** ** More on the suffix test *)

Lemma substring_skip_more (pre t : string) (k n : nat) :
  substring (String.length pre + k) n (pre ++ t)%string = substring k n t.
Proof.
  induction pre as [|c pre IH]; cbn [String.length append Nat.add substring];
    [reflexivity | exact IH].
Qed.

(** X11. Whether a path qualifies depends on its last three characters
    only: a path that qualifies has at least three characters, and a
    prefix put in front of a path of three characters or more (a
    directory, say) does not change whether it qualifies. *)
Theorem qualifies_looks_at_last_three (pre p : string) :
  (qualifies p = true -> (3 <= String.length p)%nat)
  /\ ((3 <= String.length p)%nat ->
      qualifies (pre ++ p)%string = qualifies p).
Proof.
  unfold qualifies, PyStr.endswith. split.
  - intros H. apply andb_true_iff in H as [H _].
    apply Nat.leb_le in H. exact H.
  - intros Hlen. rewrite length_app.
    change (String.length ".py") with 3%nat.
    replace (String.length pre + String.length p - 3)%nat
      with (String.length pre + (String.length p - 3))%nat by lia.
    rewrite substring_skip_more.
    replace (3 <=? String.length pre + String.length p)%nat with true
      by (symmetry; apply Nat.leb_le; lia).
    replace (3 <=? String.length p)%nat with true
      by (symmetry; apply Nat.leb_le; lia).
    reflexivity.
Qed.

Lemma qualifies_looks_at_last_three_witness :
  qualifies ("src/pkg/" ++ "mod.py")%string = qualifies "mod.py".
Proof.
  apply (proj2 (qualifies_looks_at_last_three "src/pkg/" "mod.py")).
  vm_compute. repeat constructor.
Defined.

Lemma opens_follow_input_order_witness :
  In "b.py" (candidates ["prog"; "b.py"; "missing.py"; "c.py"])
  /\ ~ In "c.py"
         (opened (snd (run ["prog"; "b.py"; "missing.py"; "c.py"]
                           sample_fs))).
Proof.
  destruct (opens_follow_input_order
              ["prog"; "b.py"; "missing.py"; "c.py"] sample_fs)
    as (n & _ & _ & _ & Hnamed & _).
  split.
  - apply Hnamed. vm_compute. auto.
  - vm_compute. intros [H|[H|[]]]; discriminate.
Defined.

(** * Runs whose writes can fail *)

Section FallibleOutput.

Variable dev : IO.device.
Variable fs : FS.t.

(** On the standard output that takes every line, the program is the
    one studied above. *)
Lemma run_accepting (argv : list string) :
  IO.run IO.accepting argv fs = run argv fs.
Proof. reflexivity. Qed.

Lemma io_scan_one_skip (p : string) (s : state) :
  qualifies p = false -> IO.scan_one dev fs p s = (Normal tt, s).
Proof. intros H. unfold IO.scan_one. now rewrite H. Qed.

Lemma io_scan_one_text (p text : string) (s : state) :
  qualifies p = true -> fs p = FS.Text text ->
  IO.scan_one dev fs p s = scan_one fs p s.
Proof.
  intros Hq Hfs.
  unfold IO.scan_one, scan_one, try_except_Exception, bind, count_lines.
  rewrite Hq, Hfs. cbn [negb].
  destruct (TextFile.line_count text >? 300); reflexivity.
Qed.

Lemma io_scan_one_raises (p : string) (e : Exc.exn) (s : state) :
  qualifies p = true -> FS.failure (fs p) = Some e ->
  IO.scan_one dev fs p s
  = if Exc.is_Exception e
    then match dev (stdout s) (error_line p e) with
         | None =>
             (SystemExit 1,
              mkState (violations s) (stdout s ++ [error_line p e])
                      (opened s ++ [p]))
         | Some e' =>
             (Raise e',
              mkState (violations s) (stdout s) (opened s ++ [p]))
         end
    else (Raise e, mkState (violations s) (stdout s) (opened s ++ [p])).
Proof.
  intros Hq Hf.
  unfold IO.scan_one, try_except_Exception, bind, count_lines, IO.print.
  rewrite Hq. cbn [negb].
  destruct (fs p) as [text|before e'|e']; cbn in Hf;
    [discriminate | injection Hf as -> | injection Hf as ->];
    (destruct (Exc.is_Exception e); [|reflexivity]);
    cbn [stdout]; destruct (dev (stdout s) (error_line p e)); reflexivity.
Qed.

(** The loop with a [print] that can raise: it differs from the loop
    above only in the handler of the first failure. *)
Lemma io_for_each_scan (paths : list string) (s : state) :
  for_each paths (IO.scan_one dev fs) s
  = match first_failure fs paths with
    | None => for_each paths (scan_one fs) s
    | Some (p, e) =>
        if Exc.is_Exception e
        then match dev (stdout s) (error_line p e) with
             | None => for_each paths (scan_one fs) s
             | Some e' =>
                 (Raise e',
                  mkState (violations s ++ found fs (reached fs paths))
                          (stdout s)
                          (opened s ++ filter qualifies (reached fs paths)))
             end
        else for_each paths (scan_one fs) s
    end.
Proof.
  revert s; induction paths as [|p rest IH]; intros s; [reflexivity|].
  cbn [for_each first_failure]. unfold bind at 1.
  destruct (qualifies p) eqn:Hq.
  - destruct (FS.failure (fs p)) as [e|] eqn:Hf.
    + rewrite (io_scan_one_raises p e s Hq Hf).
      unfold bind. rewrite (scan_one_raises fs p e s Hq Hf).
      destruct (Exc.is_Exception e); [|reflexivity].
      destruct (dev (stdout s) (error_line p e)); [|reflexivity].
      cbn [reached]. rewrite Hq, Hf. unfold found. cbn [filter].
      unfold exceeds. rewrite Hq.
      assert (Hno : match fs p with
                    | FS.Text text => TextFile.line_count text >? 300
                    | _ => false
                    end = false)
        by (destruct (fs p); [discriminate | reflexivity | reflexivity]).
      rewrite Hno. cbn [andb map]. now rewrite app_nil_r.
    + destruct (failure_none_text fs p Hf) as [text Htext].
      rewrite (io_scan_one_text p text s Hq Htext).
      unfold bind. rewrite (scan_one_text fs p text s Hq Htext), IH.
      destruct (first_failure fs rest) as [[q e]|]; [|reflexivity].
      destruct (Exc.is_Exception e); [|reflexivity].
      cbn [stdout].
      destruct (dev (stdout s) (error_line q e)); [|reflexivity].
      cbn [reached violations opened]. rewrite Hq, Hf.
      rewrite found_cons. unfold exceeds, count_at.
      rewrite Hq, Htext. cbn [andb filter]. rewrite Hq.
      now rewrite <- !app_assoc.
  - rewrite (io_scan_one_skip p s Hq).
    unfold bind. rewrite (scan_one_skip fs p s Hq), IH.
    destruct (first_failure fs rest) as [[q e]|]; [|reflexivity].
    destruct (Exc.is_Exception e); [|reflexivity].
    destruct (dev (stdout s) (error_line q e)); [|reflexivity].
    cbn [reached]. rewrite Hq. rewrite found_cons. unfold exceeds.
    rewrite Hq. cbn [andb app filter]. now rewrite Hq.
Qed.

End FallibleOutput.

Section Refinement.

Variable dev : IO.device.

(** A write that raised was refused by the device, with the output as
    it then was; that output is a strict prefix of what was to be
    written. *)
Lemma write_all_raises
  (written lines out : list string) (e : Exc.exn) :
  IO.write_all dev written lines = (out, Some e) ->
  exists k line,
    (k < List.length lines)%nat
    /\ out = written ++ firstn k lines
    /\ nth_error lines k = Some line
    /\ dev out line = Some e.
Proof.
  revert written; induction lines as [|l rest IH]; intros written H;
    cbn [IO.write_all] in H; [discriminate|].
  destruct (dev written l) as [e'|] eqn:Hd.
  - injection H as <- <-. exists 0%nat, l. cbn [firstn nth_error List.length].
    rewrite app_nil_r. repeat split; [lia | exact Hd].
  - destruct (IH _ H) as (k & line & Hk & Hout & Hnth & Hdev).
    subst out. exists (S k), line. cbn [firstn nth_error List.length].
    split; [lia|]. split; [now rewrite <- app_assoc|].
    split; [exact Hnth | exact Hdev].
Qed.

Lemma write_all_done (written lines out : list string) :
  IO.write_all dev written lines = (out, None) -> out = written ++ lines.
Proof.
  revert written; induction lines as [|l rest IH]; intros written H;
    cbn [IO.write_all] in H.
  - injection H as <-. now rewrite app_nil_r.
  - destruct (dev written l); [discriminate|].
    rewrite (IH _ H), <- app_assoc. reflexivity.
Qed.

Lemma write_all_accepting (written lines : list string) :
  (forall out line, dev out line = None) ->
  IO.write_all dev written lines = (written ++ lines, None).
Proof.
  intros Hacc. revert written; induction lines as [|l rest IH];
    intros written; cbn [IO.write_all].
  - now rewrite app_nil_r.
  - rewrite Hacc, IH, <- app_assoc. reflexivity.
Qed.

(** The loop of the report, print by print. *)
Lemma io_for_each_print (vs : list violation) (s : state) :
  for_each vs (fun v => IO.print dev (violation_line v)) s
  = match IO.write_all dev (stdout s) (map violation_line vs) with
    | (out, None) => (Normal tt, mkState (violations s) out (opened s))
    | (out, Some e) => (Raise e, mkState (violations s) out (opened s))
    end.
Proof.
  revert s; induction vs as [|v vs IH]; intros s.
  - cbn. now destruct s.
  - cbn [for_each map IO.write_all]. unfold bind at 1.
    unfold IO.print at 1.
    destruct (dev (stdout s) (violation_line v)).
    + now destruct s.
    + unfold Run.print. rewrite IH. reflexivity.
Qed.

(** The program whose writes can fail is the program above with its
    output passed through the device: it ends as that program does when
    every write is taken, and with the exception of the first write that
    raises otherwise, the output stopping before that write. *)
Lemma run_through_device (argv : list string) (fs : FS.t) :
  IO.run dev argv fs
  = match IO.write_all dev [] (stdout (snd (run argv fs))) with
    | (_, None) => run argv fs
    | (out, Some e) =>
        (Traceback e,
         mkState (violations (snd (run argv fs))) out
                 (opened (snd (run argv fs))))
    end.
Proof.
  rewrite (run_by_cases fs argv).
  unfold IO.run, IO.main, bind at 1, violations_init. cbn [stdout opened].
  unfold bind at 1. rewrite io_for_each_scan, for_each_scan.
  unfold loop_flow, loop_output.
  change (stdout start) with (@nil string).
  change (opened start) with (@nil string).
  cbn [violations stdout opened app].
  destruct (first_failure fs (candidates argv)) as [[p e]|] eqn:Hff.
  - destruct (Exc.is_Exception e); cbn [snd stdout IO.write_all];
      [|reflexivity].
    destruct (dev [] (error_line p e)); reflexivity.
  - rewrite (reached_all fs _ Hff). cbn [snd stdout].
    unfold IO.report, bind, violations_get, sys_exit, ret.
    cbn [violations].
    destruct (found fs (candidates argv)) as [|v vs] eqn:E;
      [reflexivity|].
    cbn [IO.write_all]. unfold IO.print at 1. cbn [stdout].
    destruct (dev [] header); [reflexivity|].
    unfold Run.print. cbn [violations stdout opened app].
    rewrite io_for_each_print. cbn [violations stdout opened].
    destruct (IO.write_all dev [header] (map violation_line (v :: vs)))
      as [out [e'|]] eqn:W; [reflexivity|].
    apply write_all_done in W. now rewrite W.
Qed.

End Refinement.


(** ** How [main] ends *)




(** ** Output and exit status *)

(** With a standard output that takes every line, something is printed
    exactly when the run exits with status 1. *)
Lemma ideal_output_iff_exit_one (argv : list string) (fs : FS.t) :
  (fst (run argv fs) = Exit 1 <-> stdout (snd (run argv fs)) <> [])
  /\ (fst (run argv fs) = Exit 0 -> stdout (snd (run argv fs)) = [])
  /\ (forall e, fst (run argv fs) = Traceback e ->
                stdout (snd (run argv fs)) = []).
Proof.
  rewrite run_by_cases.
  destruct (first_failure fs (candidates argv)) as [[p e]|].
  - cbn [fst snd stdout].
    destruct (Exc.is_Exception e); repeat split;
      try discriminate; try (intros H; now elim H).
  - cbn [fst snd stdout].
    destruct (found fs (candidates argv)); repeat split;
      try discriminate; try (intros H; now elim H).
Qed.

(** X2. Output and exit status agree, also when a print can raise.  A
    run that exits with status 0 has printed nothing, and a run that
    exits with status 1 has printed something.  A run that has printed
    something and does not exit with status 1 was ended by the exception
    of a later print; a run ended by any other uncaught exception has
    printed nothing.  When every print succeeds, something is printed
    exactly when the run exits with status 1. *)
Theorem output_and_exit_status
  (dev : IO.device) (argv : list string) (fs : FS.t) :
  (fst (IO.run dev argv fs) = Exit 0 ->
   stdout (snd (IO.run dev argv fs)) = [])
  /\ (fst (IO.run dev argv fs) = Exit 1 ->
      stdout (snd (IO.run dev argv fs)) <> [])
  /\ (forall e, fst (IO.run dev argv fs) = Traceback e ->
        stdout (snd (IO.run dev argv fs)) = []
        \/ exists line, dev (stdout (snd (IO.run dev argv fs))) line = Some e)
  /\ ((forall out line, dev out line = None) ->
      (fst (IO.run dev argv fs) = Exit 1
       <-> stdout (snd (IO.run dev argv fs)) <> [])).
Proof.
  destruct (ideal_output_iff_exit_one argv fs) as (Hone & Hzero & Htb).
  split; [|split; [|split]].
  - rewrite run_through_device.
    destruct (IO.write_all dev [] (stdout (snd (run argv fs))))
      as [out [e'|]]; [discriminate | exact Hzero].
  - rewrite run_through_device.
    destruct (IO.write_all dev [] (stdout (snd (run argv fs))))
      as [out [e'|]]; [discriminate | apply Hone].
  - intros e. rewrite run_through_device.
    destruct (IO.write_all dev [] (stdout (snd (run argv fs))))
      as [out [e'|]] eqn:W.
    + cbn [fst snd stdout]. intros [= <-]. right.
      destruct (write_all_raises dev _ _ _ _ W) as (k & line & _ & _ & _ & H).
      now exists line.
    + intros H. left. now apply (Htb e).
  - intros Hacc. rewrite run_through_device.
    rewrite (write_all_accepting dev [] _ Hacc). exact Hone.
Qed.

Lemma output_and_exit_status_witness :
  stdout (snd (IO.run (IO.closes_after 1) ["prog"; "readme.md"; "edge.py"]
                      sample_fs)) = []
  /\ stdout (snd (IO.run (IO.closes_after 2) ["prog"; "b.py"] sample_fs))
     <> [].
Proof.
  split.
  - apply (proj1 (output_and_exit_status
                    (IO.closes_after 1) ["prog"; "readme.md"; "edge.py"]
                    sample_fs)).
    vm_compute. reflexivity.
  - apply (proj1 (proj2 (output_and_exit_status
                           (IO.closes_after 2) ["prog"; "b.py"] sample_fs))).
    vm_compute. reflexivity.
Defined.

(** ** The threshold *)

Lemma scan_completes_iff (fs : FS.t) (argv : list string) :
  (exists s, scan argv fs start = (Normal tt, s))
  <-> first_failure fs (candidates argv) = None.
Proof.
  split.
  - intros [s Hs]. apply (run_complete fs argv s Hs).
  - intros Hff. destruct (scan_cases fs argv) as [H|(p & e & H)];
      [exact H | congruence].
Qed.

(** The violation lines on standard output are those of the violations
    found by a scan that completed. *)
Lemma printed_line_found (fs : FS.t) (argv : list string) (v : violation) :
  In (violation_line v) (stdout (snd (run argv fs)))
  <-> first_failure fs (candidates argv) = None
      /\ In v (found fs (candidates argv)).
Proof.
  rewrite run_by_cases.
  destruct (first_failure fs (candidates argv)) as [[q e]|].
  - cbn [snd stdout]. split; [|intros [H _]; discriminate].
    destruct (Exc.is_Exception e); [|intros []].
    intros [H|[]]. destruct v. discriminate H.
  - cbn [snd stdout].
    destruct (found fs (candidates argv)) as [|w ws] eqn:E.
    + split; [intros [] | intros [_ []]].
    + rewrite <- E. split.
      * intros [H|H]; [destruct v as [[|] ?]; discriminate H|].
        apply in_map_iff in H as (v' & Hline & Hv').
        split; [reflexivity|].
        now rewrite <- (violation_line_inj _ _ Hline).
      * intros [_ H]. right. now apply in_map.
Qed.

(** C1, the claim as stated fails: a file read to its end with more
    than 300 lines is not reported when a later read aborts the run.
    Here [over.py] has 301 lines and is read; [missing.py] then cannot
    be opened, and the error line is all that is printed. *)
Lemma over_limit_file_not_reported :
  TextFile.line_records (lines_of 301) = 301
  /\ stdout (snd (run ["prog"; "over.py"; "missing.py"] sample_fs))
     = [error_line "missing.py" (not_found "missing.py")]
  /\ ~ (forall p text,
          In p (opened (snd (run ["prog"; "over.py"; "missing.py"]
                                 sample_fs))) ->
          sample_fs p = FS.Text text ->
          (In (violation_line (p, TextFile.line_records text))
              (stdout (snd (run ["prog"; "over.py"; "missing.py"]
                                sample_fs)))
           <-> TextFile.line_records text > 300)).
Proof.
  split; [vm_compute; reflexivity|]. split; [vm_compute; reflexivity|].
  intros H.
  assert (Hop : In "over.py"
                   (opened (snd (run ["prog"; "over.py"; "missing.py"]
                                     sample_fs))))
    by (vm_compute; auto).
  specialize (H "over.py" (lines_of 301) Hop eq_refl).
  apply proj2 in H.
  assert (Hgt : TextFile.line_records (lines_of 301) > 300)
    by (vm_compute; reflexivity).
  specialize (H Hgt). vm_compute in H.
  destruct H as [H|[]]. discriminate H.
Qed.

(** C1, amended.  Take a qualifying path whose file a run has read to
    its end, and let [n] be the number of line records of its text.  The
    path is recorded as a violation, with the count [n], if and only if
    [n] is strictly greater than 300.  In a run whose scan completes the
    file is reported, by the line of the report for the path and [n], if
    and only if [n] is strictly greater than 300.  A file of 300 lines
    or fewer is reported in no run, and a file of 301 lines is reported
    in every run whose scan completes.  In a run whose scan does not
    complete no violation is reported. *)
Theorem reported_iff_over_limit
  (argv : list string) (fs : FS.t) (p text : string) :
  In p (opened (snd (run argv fs))) ->
  fs p = FS.Text text ->
  let n := TextFile.line_records text in
  let completes := exists s, scan argv fs start = (Normal tt, s) in
  (forall c, In (p, c) (violations (snd (run argv fs)))
             <-> c = n /\ n > 300)
  /\ (completes ->
      forall c, In (violation_line (p, c)) (stdout (snd (run argv fs)))
                <-> c = n /\ n > 300)
  /\ (n <= 300 ->
      forall c, ~ In (violation_line (p, c)) (stdout (snd (run argv fs))))
  /\ (n = 301 -> completes ->
      In (violation_line (p, 301)) (stdout (snd (run argv fs))))
  /\ (~ completes ->
      forall v, ~ In (violation_line v) (stdout (snd (run argv fs)))).
Proof.
  intros Hop Hfs n completes.
  destruct (run_state fs argv) as [Hvs Hopened].
  rewrite Hopened in Hop. apply filter_In in Hop as [Hin Hq].
  destruct (exceeds_text fs p text Hq Hfs) as [Hex Hc].
  rewrite line_count_records in Hex, Hc. fold n in Hex, Hc.
  assert (Hfound : forall paths c,
             In (p, c) (found fs paths)
             <-> In p paths /\ c = n /\ n > 300).
  { intros paths c. rewrite In_found, Hex, Hc. split.
    - intros (H1 & H2 & ->). repeat split; [exact H1 | lia].
    - intros (H1 & -> & H3). repeat split; [exact H1 | lia]. }
  assert (Hprinted : completes ->
             forall c, In (violation_line (p, c)) (stdout (snd (run argv fs)))
                       <-> c = n /\ n > 300).
  { intros Hdone c. apply scan_completes_iff in Hdone.
    rewrite printed_line_found, Hfound.
    rewrite (reached_all fs _ Hdone) in Hin. tauto. }
  split; [|split; [|split; [|split]]].
  - intros c. rewrite Hvs, Hfound. tauto.
  - exact Hprinted.
  - intros Hle c H. apply printed_line_found in H as [_ H].
    apply Hfound in H. lia.
  - intros Hn Hdone. apply (Hprinted Hdone). lia.
  - intros Hnot v H. apply printed_line_found in H as [H _].
    apply Hnot, scan_completes_iff, H.
Qed.

Lemma reported_iff_over_limit_witness :
  In (violation_line ("over.py", 301))
     (stdout (snd (run ["prog"; "edge.py"; "over.py"] sample_fs)))
  /\ ~ In (violation_line ("edge.py", 300))
          (stdout (snd (run ["prog"; "edge.py"; "over.py"] sample_fs))).
Proof.
  assert (Hover : In "over.py"
                     (opened (snd (run ["prog"; "edge.py"; "over.py"]
                                       sample_fs))))
    by (vm_compute; auto).
  assert (Hedge : In "edge.py"
                     (opened (snd (run ["prog"; "edge.py"; "over.py"]
                                       sample_fs))))
    by (vm_compute; auto).
  split.
  - pose proof (reported_iff_over_limit
                  ["prog"; "edge.py"; "over.py"] sample_fs
                  "over.py" (lines_of 301) Hover eq_refl)
      as (_ & _ & _ & H & _).
    apply H; [vm_compute; reflexivity|].
    exists (mkState [("over.py", 301)] [] ["edge.py"; "over.py"]).
    vm_compute. reflexivity.
  - pose proof (reported_iff_over_limit
                  ["prog"; "edge.py"; "over.py"] sample_fs
                  "edge.py" (lines_of 300) Hedge eq_refl)
      as (_ & _ & H & _).
    apply H. vm_compute. discriminate.
Defined.
